(** * langchaingo_swarm: handoff protocol, active-agent routing and swarm
      graph construction

    A shallow embedding of package [swarm] (handoff.go, swarm.go,
    streaming.go) together with the properties its specification states.

    Conventions.
    - A Go [string] is a byte sequence that the library routines used here
      ([strings.TrimSpace], [regexp], [strings.ToLower]) read rune by rune.
      It is represented by that reading: a list whose elements are either a
      decoded code point or a byte that is not part of a valid UTF-8
      encoding.  Reading from the end ([utf8.DecodeLastRuneInString], used
      by [strings.TrimRightFunc]) cuts a string at the same places.
      Comparison, concatenation, [HasPrefix] and [TrimPrefix] with ASCII
      literals act on this list exactly as they act on bytes.
    - A Go function returning [(T, error)] returns a pair whose second
      component is [None] for [nil].
    - Calls made on the graph engine (package [graph] of langgraphgo, an
      external collaborator) are recorded, in order, in the graph value. *)

From Stdlib Require Import List Bool NArith Lia String Ascii.
Import ListNotations.

Set Implicit Arguments.

(* ================================================================== *)
(** * Go strings *)

Inductive gochar : Type :=
| Rune (r : N)        (* a decoded Unicode code point *)
| BadByte (b : N).    (* a byte outside any valid UTF-8 sequence *)

Definition gostring : Type := list gochar.

Definition gochar_eqb (a b : gochar) : bool :=
  match a, b with
  | Rune x, Rune y => N.eqb x y
  | BadByte x, BadByte y => N.eqb x y
  | _, _ => false
  end.

(** [a == b] on strings. *)
Fixpoint gostring_eqb (a b : gostring) : bool :=
  match a, b with
  | [], [] => true
  | x :: a', y :: b' => gochar_eqb x y && gostring_eqb a' b'
  | _, _ => false
  end.

(** An ASCII string literal of the source. *)
Definition lit (s : string) : gostring :=
  map (fun a => Rune (N_of_ascii a)) (list_ascii_of_string s).

Arguments lit s%_string.

(** [strings.HasPrefix(s, prefix)]; the package calls it with an ASCII
    [prefix] only. *)
Fixpoint HasPrefix (s prefix : gostring) {struct prefix} : bool :=
  match prefix, s with
  | [], _ => true
  | p :: prefix', c :: s' => gochar_eqb c p && HasPrefix s' prefix'
  | _ :: _, [] => false
  end.

(** [strings.TrimPrefix(s, prefix)]: [s] without the leading [prefix], or
    [s] itself when it does not start with [prefix]. *)
Definition TrimPrefix (s prefix : gostring) : gostring :=
  if HasPrefix s prefix then skipn (List.length prefix) s else s.

(** [strings.Join(elems, sep)] *)
Fixpoint Join (elems : list gostring) (sep : gostring) : gostring :=
  match elems with
  | [] => []
  | [e] => e
  | e :: rest => e ++ sep ++ Join rest sep
  end.

(** [%v] applied to a [[]string]. *)
Definition fmt_strings (l : list gostring) : gostring :=
  lit "[" ++ Join l (lit " ") ++ lit "]".

(* ================================================================== *)
(** * Library routines used by [normalizeAgentName] *)

Local Open Scope N_scope.

(** [utf8.RuneError], written by [strings.Map] for a byte that is not
    valid UTF-8. *)
Definition RuneError : N := 0xFFFD.

(** [unicode.IsSpace]: the Latin-1 cases of its [switch], then the
    [White_Space] range table. *)
Definition unicode_IsSpace (r : N) : bool :=
  if r <=? 0xFF then
    ((0x09 <=? r) && (r <=? 0x0D)) || (r =? 0x20) || (r =? 0x85) || (r =? 0xA0)
  else
    (r =? 0x1680) || ((0x2000 <=? r) && (r <=? 0x200A))
    || (r =? 0x2028) || (r =? 0x2029) || (r =? 0x202F)
    || (r =? 0x205F) || (r =? 0x3000).

(** The class [\s] of Go regular expressions: [[\t\n\f\r ]]. *)
Definition perl_space (r : N) : bool :=
  (r =? 0x09) || (r =? 0x0A) || (r =? 0x0C) || (r =? 0x0D) || (r =? 0x20).

Definition isSpaceChar (c : gochar) : bool :=
  match c with
  | Rune r => unicode_IsSpace r
  | BadByte _ => false
  end.

Definition matchesWhitespace (c : gochar) : bool :=
  match c with
  | Rune r => perl_space r
  | BadByte _ => false
  end.

(** [strings.TrimLeftFunc] and [strings.TrimRightFunc]. *)
Fixpoint TrimLeftFunc (f : gochar -> bool) (s : gostring) : gostring :=
  match s with
  | [] => []
  | c :: s' => if f c then TrimLeftFunc f s' else s
  end.

Definition TrimRightFunc (f : gochar -> bool) (s : gostring) : gostring :=
  rev (TrimLeftFunc f (rev s)).

(** [strings.TrimSpace]: leading, then trailing white space removed. *)
Definition TrimSpace (s : gostring) : gostring :=
  TrimRightFunc isSpaceChar (TrimLeftFunc isSpaceChar s).

(** [whitespaceRe.ReplaceAllString(src, repl)] for
    [whitespaceRe = regexp.MustCompile(`\s+`)] and a replacement without
    [$]: every maximal run of [\s] characters becomes one [repl].
    [inRun] tells that the previous character belonged to a run. *)
Fixpoint replaceRuns (repl : gostring) (inRun : bool) (src : gostring)
  : gostring :=
  match src with
  | [] => []
  | c :: src' =>
      if matchesWhitespace c then
        if inRun then replaceRuns repl true src'
        else repl ++ replaceRuns repl true src'
      else c :: replaceRuns repl false src'
  end.

Definition whitespaceRe_ReplaceAllString (src repl : gostring) : gostring :=
  replaceRuns repl false src.

Section SwarmPackage.

(** The lower-case mapping of [unicode.CaseRanges] for code points above
    [unicode.MaxASCII]; the table belongs to the Go library. *)
Variable caseLower : N -> N.

(** [unicode.ToLower] *)
Definition unicode_ToLower (r : N) : N :=
  if r <=? 0x7F then
    if (0x41 <=? r) && (r <=? 0x5A) then r + 0x20 else r
  else caseLower r.

Definition lowerChar (c : gochar) : gochar :=
  match c with
  | Rune r => Rune (unicode_ToLower r)
  | BadByte _ => Rune RuneError
  end.

(** [strings.ToLower]: on an ASCII string the letters A-Z are shifted;
    otherwise [strings.Map(unicode.ToLower, s)], which also rewrites
    every invalid byte as [utf8.RuneError]. *)
Definition ToLower (s : gostring) : gostring := map lowerChar s.

(** handoff.go, [normalizeAgentName] *)
Definition normalizeAgentName (agentName : gostring) : gostring :=
  let normalized := TrimSpace agentName in
  let normalized := whitespaceRe_ReplaceAllString normalized (lit "_") in
  ToLower normalized.


(* ================================================================== *)
(** * Values of the collaborating packages *)

(** [context.Context], opaque to this package and only passed on. *)
Variable context_Context : Type.

(** A Go [error]; [fmt.Errorf] builds one from its formatted message. *)
Inductive error : Type :=
| errorString (msg : gostring).

Definition fmt_Errorf (msg : gostring) : error := errorString msg.

(** [llms.ContentPart], [llms.MessageContent], [llms.TextParts]. *)
Inductive ContentPart : Type :=
| TextContent (Text : gostring)
| OtherContent (kind : gostring) (payload : gostring).

Record MessageContent : Type := mkMessageContent {
  Role : gostring;
  Parts : list ContentPart
}.

Definition llms_TextParts (role : gostring) (parts : list gostring)
  : MessageContent :=
  {| Role := role; Parts := map TextContent parts |}.

(* ================================================================== *)
(** * swarm.go: the data model *)

Record SwarmState : Type := mkSwarmState {
  Messages : list MessageContent;
  ActiveAgent : gostring
}.

(** A value of static type [any] as this package inspects it: by a type
    assertion to [SwarmState]; [dynType] is what [%T] prints. *)
Inductive anyValue : Type :=
| NilValue
| SwarmStateValue (s : SwarmState)
| OtherValue (dynType : gostring).

(** The field [Agent.Runnable], of type [any], as the node functions
    inspect it: by a type assertion to
    [interface { Invoke(context.Context, SwarmState) (any, error) }]. *)
Inductive RunnableValue : Type :=
| RunnableNil
| RunnableInvoker (dynType : gostring)
    (Invoke : context_Context -> SwarmState -> anyValue * option error)
| RunnableOther (dynType : gostring).

Record Agent : Type := mkAgent {
  Name : gostring;
  Runnable : RunnableValue;
  Destinations : list gostring
}.

Record SwarmConfig : Type := mkSwarmConfig {
  Agents : list Agent;
  DefaultActiveAgent : gostring;
  ContextSchema : anyValue
}.

(* ================================================================== *)
(** * handoff.go *)

Record HandoffToolConfig : Type := mkHandoffToolConfig {
  cfgAgentName : gostring;
  cfgName : gostring;
  cfgDescription : gostring
}.

Record handoffTool : Type := mkHandoffTool {
  name : gostring;
  description : gostring;
  agentName : gostring
}.

Definition handoffTool_Name (t : handoffTool) : gostring := name t.

Definition handoffTool_Description (t : handoffTool) : gostring :=
  description t.

Definition handoffTool_Call (t : handoffTool) (ctx : context_Context)
  (input : gostring) : gostring * option error :=
  (lit "__HANDOFF__" ++ agentName t, None).

Definition CreateHandoffTool (config : HandoffToolConfig) : handoffTool :=
  let name :=
    if gostring_eqb (cfgName config) []
    then lit "transfer_to_" ++ normalizeAgentName (cfgAgentName config)
    else cfgName config in
  let description :=
    if gostring_eqb (cfgDescription config) []
    then lit "Ask agent '" ++ cfgAgentName config ++ lit "' for help"
    else cfgDescription config in
  {| name := name; description := description;
     agentName := cfgAgentName config |}.

(** [graph.Command]; the [Update] map of [CreateHandoffCommand] has the
    two keys below. *)
Inductive UpdateValue : Type :=
| UpdateMessages (ms : list MessageContent)
| UpdateString (s : gostring).

Record Command : Type := mkCommand {
  Goto : gostring;
  Update : list (gostring * UpdateValue)
}.

Definition CreateHandoffCommand (targetAgent toolCallID : gostring)
  : Command :=
  let toolMessage :=
    llms_TextParts (lit "tool")
      [lit "Successfully transferred to " ++ targetAgent] in
  {| Goto := targetAgent;
     Update := [ (lit "messages", UpdateMessages [toolMessage]);
                 (lit "active_agent", UpdateString targetAgent) ] |}.

Definition ParseHandoffResult (result : gostring) : gostring * bool :=
  let handoffPrefix := lit "__HANDOFF__" in
  if HasPrefix result handoffPrefix
  then (TrimPrefix result handoffPrefix, true)
  else ([], false).

Definition isHandoffResponse (response : gostring) : bool * gostring :=
  if HasPrefix response (lit "__HANDOFF__")
  then (true, TrimPrefix response (lit "__HANDOFF__"))
  else (false, []).

Definition processHandoff (state : SwarmState) (toolResponse : gostring)
  : SwarmState * bool :=
  let '(isHandoff, agentName) := isHandoffResponse toolResponse in
  if isHandoff then
    let toolMessage :=
      llms_TextParts (lit "tool")
        [lit "Successfully transferred to " ++ agentName] in
    let state :=
      {| Messages := Messages state ++ [toolMessage];
         ActiveAgent := ActiveAgent state |} in
    let state :=
      {| Messages := Messages state; ActiveAgent := agentName |} in
    (state, true)
  else (state, false).

(* ================================================================== *)
(** * The graph engine as this package drives it *)

(** Lines written to standard output by the node functions of
    streaming.go, one constructor per [fmt.Printf] call. *)
Inductive Printed : Type :=
| PrintNodeExecuting (agent : gostring)
| PrintFoundInvoke (agent : gostring)
| PrintInvokeError (err : error)
| PrintGotResultState (messages : nat)
| PrintResultNotSwarmState (dynType : gostring)
| PrintNoInvoke (dynType : gostring).

(** A computation that prints: the lines printed, then the value. *)
Definition Printing (A : Type) : Type := (list Printed * A)%type.

Definition ret {A : Type} (a : A) : Printing A := ([], a).

Definition bind {A B : Type} (m : Printing A) (k : A -> Printing B)
  : Printing B :=
  let '(out1, a) := m in
  let '(out2, b) := k a in
  (out1 ++ out2, b).

Definition printf (p : Printed) : Printing unit := ([p], tt).

Notation "m ;; k" := (bind m (fun _ => k))
  (at level 61, right associativity).

Definition output {A : Type} (m : Printing A) : list Printed := fst m.
Definition result {A : Type} (m : Printing A) : A := snd m.

(** What [%T] prints. *)
Definition typeOfValue (v : anyValue) : gostring :=
  match v with
  | NilValue => lit "<nil>"
  | SwarmStateValue _ => lit "swarm.SwarmState"
  | OtherValue t => t
  end.

Definition typeOfRunnable (r : RunnableValue) : gostring :=
  match r with
  | RunnableNil => lit "<nil>"
  | RunnableInvoker t _ => t
  | RunnableOther t => t
  end.

(** A node function, [func(context.Context, SwarmState) (SwarmState, error)]. *)
Definition NodeFunc : Type :=
  context_Context -> SwarmState -> Printing (SwarmState * option error).

(** One call on a graph of the engine. *)
Inductive GraphCall : Type :=
| AddNode (node description : gostring) (fn : NodeFunc)
| AddEdge (from to : gostring)
| AddConditionalEdge (from : gostring)
    (condition : context_Context -> SwarmState -> gostring)
| AddConditionalEdges (from : gostring) (route : SwarmState -> gostring)
    (pathMap : list (gostring * gostring))
| SetEntryPoint (node : gostring).

(** A graph reached through a parameter of type [any]: the calls made on
    it so far, and whether its dynamic type has the method
    [AddConditionalEdges(string, func(SwarmState) string, map[string]string)]. *)
Record StateGraph : Type := mkStateGraph {
  hasAddConditionalEdges : bool;
  calls : list GraphCall
}.

Record StreamingStateGraph : Type := mkStreamingStateGraph {
  streamingCalls : list GraphCall
}.

(** Whether [*graph.StateGraph[SwarmState]] of the engine has that method;
    a fact of the engine's version. *)
Variable StateGraph_AddConditionalEdges : bool.

Definition graph_NewStateGraph : StateGraph :=
  {| hasAddConditionalEdges := StateGraph_AddConditionalEdges; calls := [] |}.

Definition graph_NewStreamingStateGraph : StreamingStateGraph :=
  {| streamingCalls := [] |}.

Definition call (g : StateGraph) (c : GraphCall) : StateGraph :=
  {| hasAddConditionalEdges := hasAddConditionalEdges g;
     calls := calls g ++ [c] |}.

Definition streamingCall (g : StreamingStateGraph) (c : GraphCall)
  : StreamingStateGraph :=
  {| streamingCalls := streamingCalls g ++ [c] |}.

(** [graph.END] *)
Definition graph_END : gostring := lit "END".

(** [m[k] = v] on a [map[string]string], kept as a list of bindings with
    distinct keys. *)
Fixpoint mapAssign (m : list (gostring * gostring)) (k v : gostring)
  : list (gostring * gostring) :=
  match m with
  | [] => [(k, v)]
  | (k', v') :: m' =>
      if gostring_eqb k' k then (k, v) :: m'
      else (k', v') :: mapAssign m' k v
  end.

(* ================================================================== *)
(** * swarm.go *)

(** The loop that looks for the default active agent among the names. *)
Definition found (agentNames : list gostring) (defaultActiveAgent : gostring)
  : bool :=
  existsb (fun name => gostring_eqb name defaultActiveAgent) agentNames.

(** The closure [routeFunc] of [addActiveAgentRouter]. *)
Definition routeFunc (defaultActiveAgent : gostring) (state : SwarmState)
  : gostring :=
  if negb (gostring_eqb (ActiveAgent state) [])
  then ActiveAgent state
  else defaultActiveAgent.

Definition addActiveAgentRouter (g : StateGraph) (agentNames : list gostring)
  (defaultActiveAgent : gostring) : StateGraph * option error :=
  if negb (found agentNames defaultActiveAgent) then
    (g, Some (fmt_Errorf (lit "default active agent '" ++ defaultActiveAgent
                          ++ lit "' not found in routes "
                          ++ fmt_strings agentNames)))
  else
    let pathMap :=
      fold_left (fun m name => mapAssign m name name) agentNames [] in
    if hasAddConditionalEdges g then
      (call g (AddConditionalEdges (lit "__start__")
                 (routeFunc defaultActiveAgent) pathMap), None)
    else (g, None).

Definition AddActiveAgentRouter (g : StateGraph) (agentNames : list gostring)
  (defaultActiveAgent : gostring) : StateGraph * option error :=
  addActiveAgentRouter g agentNames defaultActiveAgent.

(** The closure [nodeFunc] of [CreateSwarm], for the captured agent. *)
Definition nodeFunc (agentCopy : Agent) : NodeFunc :=
  fun ctx state =>
    match Runnable agentCopy with
    | RunnableInvoker _ Invoke =>
        let '(result, err) := Invoke ctx state in
        match err with
        | Some e => ret (state, Some e)
        | None =>
            match result with
            | SwarmStateValue resultState => ret (resultState, None)
            | _ => ret (state, None)
            end
        end
    | _ => ret (state, None)
    end.

(** The body of the loop over [config.Agents] in [CreateSwarm]. *)
Definition addAgent (g : StateGraph) (agent : Agent) : StateGraph :=
  let g := call g (AddNode (Name agent) [] (nodeFunc agent)) in
  fold_left (fun g dest => call g (AddEdge (Name agent) dest))
    (Destinations agent) g.

Definition CreateSwarm (config : SwarmConfig)
  : option StateGraph * option error :=
  if Nat.eqb (List.length (Agents config)) 0 then
    (None, Some (fmt_Errorf (lit "agents list cannot be empty")))
  else
    let agentNames := map Name (Agents config) in
    if negb (found agentNames (DefaultActiveAgent config)) then
      (None, Some (fmt_Errorf
         (lit "default active agent '" ++ DefaultActiveAgent config
          ++ lit "' not found in agent names " ++ fmt_strings agentNames)))
    else
      let g := graph_NewStateGraph in
      match addActiveAgentRouter g agentNames (DefaultActiveAgent config) with
      | (_, Some err) => (None, Some err)
      | (g, None) => (Some (fold_left addAgent (Agents config) g), None)
      end.

(* ================================================================== *)
(** * streaming.go *)

(** The closure [nodeFunc] of [CreateStreamingSwarm]. *)
Definition streamingNodeFunc (agentCopy : Agent) : NodeFunc :=
  fun ctx state =>
    printf (PrintNodeExecuting (Name agentCopy)) ;;
    match Runnable agentCopy with
    | RunnableInvoker _ Invoke =>
        printf (PrintFoundInvoke (Name agentCopy)) ;;
        let '(result, err) := Invoke ctx state in
        match err with
        | Some e => printf (PrintInvokeError e) ;; ret (state, Some e)
        | None =>
            match result with
            | SwarmStateValue resultState =>
                printf (PrintGotResultState
                          (List.length (Messages resultState))) ;;
                ret (resultState, None)
            | _ =>
                printf (PrintResultNotSwarmState (typeOfValue result)) ;;
                ret (state, None)
            end
        end
    | r =>
        printf (PrintNoInvoke (typeOfRunnable r)) ;;
        ret (state, None)
    end.

(** The closure handed to [AddConditionalEdge] for an agent that has
    destinations. *)
Definition conditionFunc (agentCopy : Agent)
  : context_Context -> SwarmState -> gostring :=
  fun ctx state =>
    if negb (gostring_eqb (ActiveAgent state) [])
       && negb (gostring_eqb (ActiveAgent state) (Name agentCopy))
    then
      if existsb (fun dest => gostring_eqb dest (ActiveAgent state))
           (Destinations agentCopy)
      then ActiveAgent state
      else graph_END
    else graph_END.

(** The bodies of the two loops over [config.Agents]. *)
Definition addStreamingNode (g : StreamingStateGraph) (agent : Agent)
  : StreamingStateGraph :=
  streamingCall g (AddNode (Name agent) [] (streamingNodeFunc agent)).

Definition addStreamingEdge (g : StreamingStateGraph) (agent : Agent)
  : StreamingStateGraph :=
  if Nat.ltb 0 (List.length (Destinations agent)) then
    streamingCall g (AddConditionalEdge (Name agent) (conditionFunc agent))
  else
    streamingCall g (AddEdge (Name agent) graph_END).

Definition CreateStreamingSwarm (config : SwarmConfig)
  : option StreamingStateGraph * option error :=
  if Nat.eqb (List.length (Agents config)) 0 then
    (None, Some (fmt_Errorf (lit "agents list cannot be empty")))
  else
    let agentNames := map Name (Agents config) in
    if negb (found agentNames (DefaultActiveAgent config)) then
      (None, Some (fmt_Errorf
         (lit "default active agent '" ++ DefaultActiveAgent config
          ++ lit "' not found in agent names " ++ fmt_strings agentNames)))
    else
      let g := graph_NewStreamingStateGraph in
      let g := streamingCall g (SetEntryPoint (DefaultActiveAgent config)) in
      let g := fold_left addStreamingNode (Agents config) g in
      let g := fold_left addStreamingEdge (Agents config) g in
      (Some g, None).

End SwarmPackage.

Arguments RunnableNil {context_Context}.
Arguments RunnableOther {context_Context} dynType.
Arguments AddEdge {context_Context} from to.
Arguments AddConditionalEdges {context_Context} from route pathMap.
Arguments SetEntryPoint {context_Context} node.
Arguments graph_NewStateGraph {context_Context}.
Arguments graph_NewStreamingStateGraph {context_Context}.

(* ================================================================== *)
(** * src/unnamed/part_000: the streaming builder with a typed [Invoke] *)

Section TypedInvoke.

Variable context_Context : Type.

(** [Agent.Runnable] as the node function of this builder inspects it:
    first by a type assertion to
    [interface { Invoke(context.Context, SwarmState) (SwarmState, error) }],
    then as [nodeFunc] does.  A Go value has one method [Invoke], so it
    passes at most one of the two assertions. *)
Inductive TypedRunnableValue : Type :=
| RunnableTypedInvoker (dynType : gostring)
    (Invoke : context_Context -> SwarmState -> SwarmState * option error)
| RunnableUntyped (r : RunnableValue context_Context).

(** The closure [nodeFunc] of that builder; of the captured agent it
    reads the field [Runnable] only. *)
Definition typedNodeFunc (runnable : TypedRunnableValue)
  : NodeFunc context_Context :=
  fun ctx state =>
    match runnable with
    | RunnableTypedInvoker _ Invoke => ret (Invoke ctx state)
    | RunnableUntyped r =>
        match r with
        | RunnableInvoker _ Invoke =>
            let '(result, err) := Invoke ctx state in
            match err with
            | Some e => ret (state, Some e)
            | None =>
                match result with
                | SwarmStateValue resultState => ret (resultState, None)
                | _ => ret (state, None)
                end
            end
        | _ => ret (state, None)
        end
    end.

End TypedInvoke.

(* ================================================================== *)
(** * The customer support example (listed in src/README.md) *)

Record Flight : Type := mkFlight {
  Flight_DepartureAirport : gostring;
  Flight_ArrivalAirport : gostring;
  Flight_Airline : gostring;
  Flight_Date : gostring;
  Flight_ID : gostring
}.

Record Hotel : Type := mkHotel {
  Hotel_Location : gostring;
  Hotel_Name : gostring;
  Hotel_Neighborhood : gostring;
  Hotel_ID : gostring
}.

Record Reservation : Type := mkReservation {
  FlightInfo : Flight;
  HotelInfo : Hotel
}.

(** [&Reservation{}] *)
Definition emptyReservation : Reservation :=
  {| FlightInfo := mkFlight [] [] [] [] [];
     HotelInfo := mkHotel [] [] [] [] |}.

(** The global [reservations], a [map[string]*Reservation]: bindings with
    distinct keys; a missing key reads as [nil].  The pointers it holds
    are reached through the map only. *)
Definition Reservations : Type := list (gostring * Reservation).

Fixpoint reservationOf (m : Reservations) (userID : gostring)
  : option Reservation :=
  match m with
  | [] => None
  | (k, r) :: m' =>
      if gostring_eqb k userID then Some r else reservationOf m' userID
  end.

Fixpoint setReservation (m : Reservations) (userID : gostring)
  (r : Reservation) : Reservations :=
  match m with
  | [] => [(userID, r)]
  | (k, r') :: m' =>
      if gostring_eqb k userID then (userID, r) :: m'
      else (k, r') :: setReservation m' userID r
  end.

(** [bookFlight], over the global [flights] and [reservations]; returns
    the message and the reservations it leaves. *)
Fixpoint bookFlight (flights : list Flight) (reservations : Reservations)
  (flightID userID : gostring) : gostring * Reservations :=
  match flights with
  | [] => (lit "Flight not found", reservations)
  | flight :: rest =>
      if gostring_eqb (Flight_ID flight) flightID then
        let reservations :=
          match reservationOf reservations userID with
          | None => setReservation reservations userID emptyReservation
          | Some _ => reservations
          end in
        let reservations :=
          match reservationOf reservations userID with
          | Some r =>
              setReservation reservations userID
                {| FlightInfo := flight; HotelInfo := HotelInfo r |}
          | None => reservations
          end in
        (lit "Successfully booked flight", reservations)
      else bookFlight rest reservations flightID userID
  end.

(** [bookHotel], over the global [hotels] and [reservations]. *)
Fixpoint bookHotel (hotels : list Hotel) (reservations : Reservations)
  (hotelID userID : gostring) : gostring * Reservations :=
  match hotels with
  | [] => (lit "Hotel not found", reservations)
  | hotel :: rest =>
      if gostring_eqb (Hotel_ID hotel) hotelID then
        let reservations :=
          match reservationOf reservations userID with
          | None => setReservation reservations userID emptyReservation
          | Some _ => reservations
          end in
        let reservations :=
          match reservationOf reservations userID with
          | Some r =>
              setReservation reservations userID
                {| FlightInfo := FlightInfo r; HotelInfo := hotel |}
          | None => reservations
          end in
        (lit "Successfully booked hotel", reservations)
      else bookHotel rest reservations hotelID userID
  end.

(** The first flight, or hotel, with the given ID. *)
Definition flightWithID (flights : list Flight) (flightID : gostring)
  : option Flight :=
  find (fun f => gostring_eqb (Flight_ID f) flightID) flights.

Definition hotelWithID (hotels : list Hotel) (hotelID : gostring)
  : option Hotel :=
  find (fun h => gostring_eqb (Hotel_ID h) hotelID) hotels.

(** What a user has reserved, an empty reservation when none is stored. *)
Definition reservedBy (m : Reservations) (userID : gostring) : Reservation :=
  match reservationOf m userID with
  | Some r => r
  | None => emptyReservation
  end.

(* ================================================================== *)
(** * Vocabulary of the statements *)

(** The first element, if any, is not white space. *)
Definition headOK (s : gostring) : bool :=
  match s with
  | [] => true
  | c :: _ => negb (isSpaceChar c)
  end.

(** Neither end is white space. *)
Definition trimmed (s : gostring) : bool := headOK s && headOK (rev s).

(** No element is matched by [\s]. *)
Definition noWhitespace (s : gostring) : Prop :=
  Forall (fun c => matchesWhitespace c = false) s.

(** A case table with the cased letters of Latin-1 only. *)
Definition latin1Lower (r : N) : N :=
  if (0xC0 <=? r) && (r <=? 0xDE) && negb (r =? 0xD7) then r + 0x20 else r.

(** The string starts with the reserved prefix. *)
Definition startsWithHandoffPrefix (s : gostring) : Prop :=
  exists rest, s = lit "__HANDOFF__" ++ rest.

(** The message appended by a handoff to [target]. *)
Definition transferMessage (target : gostring) : MessageContent :=
  {| Role := lit "tool";
     Parts := [TextContent (lit "Successfully transferred to " ++ target)] |}.

(** Reading [m[k]] in a [map[string]string]. *)
Fixpoint mapLookup (m : list (gostring * gostring)) (k : gostring)
  : option gostring :=
  match m with
  | [] => None
  | (k', v) :: m' => if gostring_eqb k' k then Some v else mapLookup m' k
  end.

(** Every element is white space for [unicode.IsSpace]. *)
Definition allSpace (s : gostring) : Prop :=
  Forall (fun c => isSpaceChar c = true) s.

(** A non-empty run of characters matched by [\s]. *)
Definition whitespaceRun (s : gostring) : Prop :=
  s <> [] /\ Forall (fun c => matchesWhitespace c = true) s.

(** An ASCII capital letter. *)
Definition isAsciiUpper (c : gochar) : bool :=
  match c with
  | Rune r => (0x41 <=? r) && (r <=? 0x5A)
  | BadByte _ => false
  end.

(** A decoded code point, not a stray byte. *)
Definition isRune (c : gochar) : bool :=
  match c with
  | Rune _ => true
  | BadByte _ => false
  end.

(** Whether the replacement loop is inside a run after reading [s],
    having started in state [b]. *)
Fixpoint runState (b : bool) (s : gostring) : bool :=
  match s with
  | [] => b
  | c :: s' => runState (matchesWhitespace c) s'
  end.

(** The names under which nodes were added, in order. *)
Definition nodeNames {context_Context : Type}
  (cs : list (GraphCall context_Context)) : list gostring :=
  flat_map (fun c => match c with
                     | AddNode n _ _ => [n]
                     | _ => []
                     end) cs.

(** The unconditional edges that were added, in order. *)
Definition plainEdges {context_Context : Type}
  (cs : list (GraphCall context_Context)) : list (gostring * gostring) :=
  flat_map (fun c => match c with
                     | AddEdge from to => [(from, to)]
                     | _ => []
                     end) cs.

(** The nodes at which an entry point was set, in order. *)
Definition entryPoints {context_Context : Type}
  (cs : list (GraphCall context_Context)) : list gostring :=
  flat_map (fun c => match c with
                     | SetEntryPoint n => [n]
                     | _ => []
                     end) cs.

(** The two messages with which the builders fail. *)
Definition emptyAgentsError : error :=
  errorString (lit "agents list cannot be empty").

Definition unknownDefaultError (d : gostring) (agentNames : list gostring)
  : error :=
  errorString (lit "default active agent '" ++ d
               ++ lit "' not found in agent names "
               ++ fmt_strings agentNames).

(** The targets of the handoff markers among tool responses, in order. *)
Definition handoffTargets (responses : list gostring) : list gostring :=
  flat_map (fun r => let '(t, isHandoff) := ParseHandoffResult r in
                     if isHandoff then [t] else []) responses.

(** [processHandoff] applied to one tool response after the other. *)
Definition processHandoffs (state : SwarmState) (responses : list gostring)
  : SwarmState :=
  fold_left (fun st r => fst (processHandoff st r)) responses state.

Section Vocabulary.

Variable context_Context : Type.

Local Abbreviation Agent := (Agent context_Context).
Local Abbreviation GraphCall := (GraphCall context_Context).

(** The calls one agent contributes in [CreateSwarm]. *)
Definition agentCalls (a : Agent) : list GraphCall :=
  AddNode (Name a) [] (nodeFunc a)
  :: map (fun dest => AddEdge (Name a) dest) (Destinations a).

(** The call one agent contributes to each loop of
    [CreateStreamingSwarm]. *)
Definition streamingNodeCall (a : Agent) : GraphCall :=
  AddNode (Name a) [] (streamingNodeFunc a).

Definition streamingEdgeCall (a : Agent) : GraphCall :=
  match Destinations a with
  | [] => AddEdge (Name a) graph_END
  | _ :: _ => AddConditionalEdge (Name a) (conditionFunc a)
  end.

(** When an agent's conditional transition leaves for another agent. *)
Definition handsOff (a : Agent) (state : SwarmState) : Prop :=
  ActiveAgent state <> []
  /\ ActiveAgent state <> Name a
  /\ In (ActiveAgent state) (Destinations a).

(** The value is not a [SwarmState]. *)
Definition notSwarmState (v : anyValue) : Prop :=
  forall s, v <> SwarmStateValue s.

(** The runnable lacks the [Invoke] method the node functions look for. *)
Definition lacksInvoke (r : RunnableValue context_Context) : Prop :=
  forall dynType Invoke, r <> RunnableInvoker dynType Invoke.

End Vocabulary.

Arguments agentCalls {context_Context} a.
Arguments streamingNodeCall {context_Context} a.
Arguments streamingEdgeCall {context_Context} a.

(* ================================================================== *)
(** * A sample swarm *)

(** An agent like [createMockAgent] of swarm_test.go: its runnable appends
    one "ai" message. *)
Definition mockRunnable (response : gostring) : RunnableValue unit :=
  RunnableInvoker (lit "*graph.StateRunnable[swarm.SwarmState]")
    (fun _ state =>
       (SwarmStateValue
          {| Messages := Messages state
                         ++ [llms_TextParts (lit "ai") [response]];
             ActiveAgent := ActiveAgent state |}, None)).

(** A runnable whose [Invoke] fails. *)
Definition failingRunnable : RunnableValue unit :=
  RunnableInvoker (lit "*failing")
    (fun _ _ => (NilValue, Some (errorString (lit "model unavailable")))).

(** A runnable whose [Invoke] returns a pointer instead of a state. *)
Definition pointerRunnable : RunnableValue unit :=
  RunnableInvoker (lit "*pointer")
    (fun _ _ => (OtherValue (lit "*swarm.SwarmState"), None)).

Definition alice : Agent unit :=
  {| Name := lit "Alice"; Runnable := mockRunnable (lit "Hello from Alice");
     Destinations := [lit "Bob"] |}.

Definition bob : Agent unit :=
  {| Name := lit "Bob"; Runnable := mockRunnable (lit "Hello from Bob");
     Destinations := [lit "Alice"] |}.

Definition carol : Agent unit :=
  {| Name := lit "Carol"; Runnable := failingRunnable; Destinations := [] |}.

Definition dave : Agent unit :=
  {| Name := lit "Dave"; Runnable := pointerRunnable; Destinations := [] |}.

Definition erin : Agent unit :=
  {| Name := lit "Erin"; Runnable := RunnableOther (lit "string");
     Destinations := [] |}.

Definition aliceBob : SwarmConfig unit :=
  {| Agents := [alice; bob]; DefaultActiveAgent := lit "Alice";
     ContextSchema := NilValue |}.

Definition noAgents : SwarmConfig unit :=
  {| Agents := []; DefaultActiveAgent := lit "Alice";
     ContextSchema := NilValue |}.

Definition aliceOnlyDefaultBob : SwarmConfig unit :=
  {| Agents := [{| Name := lit "Alice";
                   Runnable := mockRunnable (lit "Hello");
                   Destinations := [] |}];
     DefaultActiveAgent := lit "Bob"; ContextSchema := NilValue |}.

Definition fullSwarm : SwarmConfig unit :=
  {| Agents := [alice; bob; carol; dave; erin];
     DefaultActiveAgent := lit "Alice"; ContextSchema := NilValue |}.

Definition helloState : SwarmState :=
  {| Messages := [llms_TextParts (lit "user") [lit "Hello"]];
     ActiveAgent := [] |}.

(** A runnable with the typed [Invoke], failing after it has added a
    message to the state it returns. *)
Definition typedFailingRunnable : TypedRunnableValue unit :=
  RunnableTypedInvoker (lit "*typed")
    (fun _ state =>
       ({| Messages := Messages state
                       ++ [llms_TextParts (lit "ai") [lit "partial answer"]];
           ActiveAgent := ActiveAgent state |},
        Some (errorString (lit "model unavailable")))).

(** The offers of the customer support example, with a fixed date. *)
Definition sampleFlights : list Flight :=
  [ {| Flight_DepartureAirport := lit "BOS"; Flight_ArrivalAirport := lit "JFK";
       Flight_Airline := lit "Jet Blue"; Flight_Date := lit "2025-01-01";
       Flight_ID := lit "1" |} ].

Definition sampleHotels : list Hotel :=
  [ {| Hotel_Location := lit "New York"; Hotel_Name := lit "McKittrick Hotel";
       Hotel_Neighborhood := lit "Chelsea"; Hotel_ID := lit "1" |} ].

(* ================================================================== *)
(** * Properties *)

(** ** Strings *)

Lemma gochar_eqb_eq (a b : gochar) : gochar_eqb a b = true <-> a = b.
Proof.
  destruct a, b; simpl; rewrite ?N.eqb_eq;
    split; intro H; try discriminate; try (inversion H; reflexivity);
    subst; reflexivity.
Qed.

Lemma gochar_eqb_refl (a : gochar) : gochar_eqb a a = true.
Proof. apply gochar_eqb_eq; reflexivity. Qed.

Lemma gostring_eqb_eq (a b : gostring) : gostring_eqb a b = true <-> a = b.
Proof.
  revert b; induction a as [|x a IH]; intros [|y b]; simpl;
    try (split; [discriminate | intro H; inversion H]); try tauto.
  rewrite andb_true_iff, gochar_eqb_eq, IH.
  split; [intros [-> ->]; reflexivity | intro H; inversion H; auto].
Qed.

Lemma gostring_eqb_refl (a : gostring) : gostring_eqb a a = true.
Proof. apply gostring_eqb_eq; reflexivity. Qed.

Lemma gostring_eqb_neq (a b : gostring) : gostring_eqb a b = false <-> a <> b.
Proof.
  rewrite <- gostring_eqb_eq. destruct (gostring_eqb a b); split; intro H;
    try reflexivity; try discriminate; try (intro; discriminate).
  exfalso; apply H; reflexivity.
Qed.

Lemma HasPrefix_app (p s : gostring) : HasPrefix (p ++ s) p = true.
Proof.
  induction p as [|c p IH]; simpl; [reflexivity|].
  rewrite gochar_eqb_refl; exact IH.
Qed.

Lemma HasPrefix_inv (s p : gostring) :
  HasPrefix s p = true -> exists t, s = p ++ t.
Proof.
  revert s; induction p as [|c p IH]; intros s H.
  - exists s; reflexivity.
  - destruct s as [|d s]; simpl in H; [discriminate|].
    apply andb_true_iff in H as [Hc Hs].
    apply gochar_eqb_eq in Hc; subst d.
    destruct (IH _ Hs) as [t ->]. exists t; reflexivity.
Qed.

Lemma TrimPrefix_app (p s : gostring) : TrimPrefix (p ++ s) p = s.
Proof.
  unfold TrimPrefix. rewrite HasPrefix_app.
  induction p as [|c p IH]; simpl; [reflexivity | exact IH].
Qed.

(** ** Comparisons on code points *)

Ltac rune_cases :=
  repeat (match goal with
          | |- context [N.leb ?a ?b] => destruct (N.leb_spec a b)
          | |- context [N.eqb ?a ?b] => destruct (N.eqb_spec a b)
          | H : context [N.leb ?a ?b] |- _ => destruct (N.leb_spec a b)
          | H : context [N.eqb ?a ?b] |- _ => destruct (N.eqb_spec a b)
          end; simpl in *; try discriminate; try lia);
  try reflexivity; try lia.

Lemma perl_space_IsSpace (r : N) :
  perl_space r = true -> unicode_IsSpace r = true.
Proof.
  unfold perl_space, unicode_IsSpace. intro H. rune_cases.
Qed.

Lemma matchesWhitespace_isSpaceChar (c : gochar) :
  matchesWhitespace c = true -> isSpaceChar c = true.
Proof. destruct c; simpl; [apply perl_space_IsSpace | discriminate]. Qed.

(** ** Trimming *)

Lemma TrimLeftFunc_fixed (s : gostring) :
  headOK s = true -> TrimLeftFunc isSpaceChar s = s.
Proof.
  destruct s as [|c s]; simpl; [reflexivity|].
  destruct (isSpaceChar c); [discriminate | reflexivity].
Qed.

Lemma headOK_TrimLeftFunc (s : gostring) :
  headOK (TrimLeftFunc isSpaceChar s) = true.
Proof.
  induction s as [|c s IH]; simpl; [reflexivity|].
  destruct (isSpaceChar c) eqn:E; [exact IH|]. simpl. rewrite E. reflexivity.
Qed.

Lemma TrimLeftFunc_snoc (f : gochar -> bool) (l : gostring) (c : gochar) :
  f c = false -> TrimLeftFunc f (l ++ [c]) = TrimLeftFunc f l ++ [c].
Proof.
  intro Hc. induction l as [|d l IH]; simpl.
  - rewrite Hc. reflexivity.
  - destruct (f d); [exact IH | reflexivity].
Qed.

Lemma TrimRightFunc_fixed (s : gostring) :
  headOK (rev s) = true -> TrimRightFunc isSpaceChar s = s.
Proof.
  intro H. unfold TrimRightFunc.
  rewrite (TrimLeftFunc_fixed _ H). apply rev_involutive.
Qed.

Lemma headOK_rev_TrimRightFunc (s : gostring) :
  headOK (rev (TrimRightFunc isSpaceChar s)) = true.
Proof.
  unfold TrimRightFunc. rewrite rev_involutive. apply headOK_TrimLeftFunc.
Qed.

Lemma headOK_TrimRightFunc (s : gostring) :
  headOK s = true -> headOK (TrimRightFunc isSpaceChar s) = true.
Proof.
  destruct s as [|c s]; [reflexivity|]. simpl. intro H.
  apply negb_true_iff in H. unfold TrimRightFunc. simpl.
  rewrite (TrimLeftFunc_snoc _ _ _ H), rev_app_distr. simpl.
  rewrite H. reflexivity.
Qed.

Lemma TrimSpace_trimmed (s : gostring) : trimmed (TrimSpace s) = true.
Proof.
  unfold trimmed, TrimSpace. apply andb_true_iff. split.
  - apply headOK_TrimRightFunc, headOK_TrimLeftFunc.
  - apply headOK_rev_TrimRightFunc.
Qed.

Lemma TrimSpace_fixed (s : gostring) : trimmed s = true -> TrimSpace s = s.
Proof.
  unfold trimmed, TrimSpace. intro H. apply andb_true_iff in H as [H1 H2].
  rewrite (TrimLeftFunc_fixed _ H1). apply TrimRightFunc_fixed, H2.
Qed.

(** ** Replacing white-space runs *)

Lemma replaceRuns_snoc (repl : gostring) (b : bool) (s : gostring)
  (c : gochar) :
  matchesWhitespace c = false ->
  replaceRuns repl b (s ++ [c]) = replaceRuns repl b s ++ [c].
Proof.
  intro Hc. revert b. induction s as [|d s IH]; intro b; simpl.
  - rewrite Hc. reflexivity.
  - destruct (matchesWhitespace d).
    + destruct b; rewrite IH; [reflexivity | apply app_assoc].
    + rewrite IH. reflexivity.
Qed.

Lemma replaceRuns_noWhitespace (repl : gostring) (b : bool) (s : gostring) :
  noWhitespace repl -> noWhitespace (replaceRuns repl b s).
Proof.
  intro Hr. revert b. induction s as [|c s IH]; intro b; simpl.
  - constructor.
  - destruct (matchesWhitespace c) eqn:E.
    + destruct b; [apply IH|]. apply Forall_app. split; [exact Hr | apply IH].
    + constructor; [exact E | apply IH].
Qed.

Lemma replaceRuns_fixed (repl : gostring) (b : bool) (s : gostring) :
  noWhitespace s -> replaceRuns repl b s = s.
Proof.
  intro H. revert b. induction H as [|c s Hc _ IH]; intro b; simpl.
  - reflexivity.
  - rewrite Hc, IH. reflexivity.
Qed.

Lemma headOK_not_matched (c : gochar) :
  negb (isSpaceChar c) = true -> matchesWhitespace c = false.
Proof.
  intro H. apply negb_true_iff in H.
  destruct (matchesWhitespace c) eqn:E; [|reflexivity].
  rewrite (matchesWhitespace_isSpaceChar _ E) in H. discriminate.
Qed.

Lemma trimmed_replaceRuns (repl s : gostring) :
  trimmed s = true -> trimmed (replaceRuns repl false s) = true.
Proof.
  unfold trimmed. intro H. apply andb_true_iff in H as [H1 H2].
  apply andb_true_iff. split.
  - destruct s as [|c s]; [reflexivity|]. simpl in H1 |- *.
    rewrite (headOK_not_matched _ H1). simpl. exact H1.
  - destruct (rev s) as [|d l] eqn:E.
    + apply (f_equal (@rev gochar)) in E. rewrite rev_involutive in E.
      subst s. reflexivity.
    + apply (f_equal (@rev gochar)) in E. rewrite rev_involutive in E.
      simpl in E. subst s. simpl in H2.
      rewrite (replaceRuns_snoc _ _ _ _ (headOK_not_matched _ H2)).
      rewrite rev_app_distr. simpl. exact H2.
Qed.

(** ** Lower-casing and [normalizeAgentName] *)

Section Normalization.

Variable caseLower : N -> N.

(** What the proofs use of the library's case table: a lower-cased code
    point is its own lower case, lower-casing never turns a code point
    into white space, and U+FFFD has no case. *)
Hypothesis caseLower_idem :
  forall r, 0x7F < r -> unicode_ToLower caseLower (caseLower r) = caseLower r.
Hypothesis caseLower_space :
  forall r, 0x7F < r ->
    unicode_IsSpace (caseLower r) = true -> caseLower r = r.
Hypothesis caseLower_RuneError : caseLower RuneError = RuneError.

Lemma unicode_ToLower_idem (r : N) :
  unicode_ToLower caseLower (unicode_ToLower caseLower r)
  = unicode_ToLower caseLower r.
Proof.
  destruct (N.leb_spec r 0x7F) as [Hr|Hr].
  - unfold unicode_ToLower. rune_cases.
  - unfold unicode_ToLower at 2 3.
    destruct (N.leb_spec r 0x7F); [lia|]. apply caseLower_idem, Hr.
Qed.

Lemma unicode_ToLower_space (r : N) :
  unicode_IsSpace (unicode_ToLower caseLower r) = true ->
  unicode_ToLower caseLower r = r.
Proof.
  destruct (N.leb_spec r 0x7F) as [Hr|Hr].
  - unfold unicode_ToLower, unicode_IsSpace. intro H. rune_cases.
  - unfold unicode_ToLower.
    destruct (N.leb_spec r 0x7F); [lia|]. apply caseLower_space, Hr.
Qed.

Lemma lowerChar_idem (c : gochar) :
  lowerChar caseLower (lowerChar caseLower c) = lowerChar caseLower c.
Proof.
  destruct c as [r|b]; simpl.
  - rewrite unicode_ToLower_idem. reflexivity.
  - unfold unicode_ToLower. simpl. rewrite caseLower_RuneError. reflexivity.
Qed.

Lemma lowerChar_isSpaceChar (c : gochar) :
  isSpaceChar c = false -> isSpaceChar (lowerChar caseLower c) = false.
Proof.
  destruct c as [r|b]; simpl; [|reflexivity]. intro H.
  destruct (unicode_IsSpace (unicode_ToLower caseLower r)) eqn:E;
    [|reflexivity].
  rewrite (unicode_ToLower_space _ E) in E. congruence.
Qed.

Lemma lowerChar_matchesWhitespace (c : gochar) :
  matchesWhitespace c = false ->
  matchesWhitespace (lowerChar caseLower c) = false.
Proof.
  destruct c as [r|b]; simpl; [|reflexivity]. intro H.
  destruct (perl_space (unicode_ToLower caseLower r)) eqn:E; [|reflexivity].
  rewrite (unicode_ToLower_space _ (perl_space_IsSpace _ E)) in E.
  congruence.
Qed.

Lemma headOK_ToLower (s : gostring) :
  headOK s = true -> headOK (ToLower caseLower s) = true.
Proof.
  destruct s as [|c s]; [reflexivity|]. simpl. intro H.
  apply negb_true_iff in H. apply negb_true_iff.
  apply lowerChar_isSpaceChar, H.
Qed.

Lemma trimmed_ToLower (s : gostring) :
  trimmed s = true -> trimmed (ToLower caseLower s) = true.
Proof.
  unfold trimmed. intro H. apply andb_true_iff in H as [H1 H2].
  apply andb_true_iff. split; [apply headOK_ToLower, H1|].
  unfold ToLower. rewrite <- map_rev. apply headOK_ToLower, H2.
Qed.

Lemma noWhitespace_ToLower (s : gostring) :
  noWhitespace s -> noWhitespace (ToLower caseLower s).
Proof.
  intro H. induction H as [|c s Hc _ IH]; simpl; constructor.
  - apply lowerChar_matchesWhitespace, Hc.
  - exact IH.
Qed.

Lemma ToLower_idem (s : gostring) :
  ToLower caseLower (ToLower caseLower s) = ToLower caseLower s.
Proof.
  unfold ToLower. rewrite map_map. apply map_ext, lowerChar_idem.
Qed.

Lemma noWhitespace_underscore : noWhitespace (lit "_").
Proof. repeat constructor. Qed.

(** C9. [normalizeAgentName] is idempotent on every string, valid UTF-8
    or not, and maps the four names of the test table to their expected
    forms.  The case table enters through the three facts above only. *)
Theorem normalizeAgentName_idempotent :
  (forall x : gostring,
      normalizeAgentName caseLower (normalizeAgentName caseLower x)
      = normalizeAgentName caseLower x)
  /\ normalizeAgentName caseLower (lit "SimpleAgent") = lit "simpleagent"
  /\ normalizeAgentName caseLower (lit "Agent With Spaces")
     = lit "agent_with_spaces"
  /\ normalizeAgentName caseLower (lit "  Trim Me  ") = lit "trim_me"
  /\ normalizeAgentName caseLower (lit "Multiple   Spaces")
     = lit "multiple_spaces".
Proof.
  split; [|repeat split; reflexivity].
  intro x. unfold normalizeAgentName, whitespaceRe_ReplaceAllString.
  set (t := TrimSpace x).
  set (z := replaceRuns (lit "_") false t).
  assert (Ht : trimmed (ToLower caseLower z) = true).
  { apply trimmed_ToLower, trimmed_replaceRuns, TrimSpace_trimmed. }
  assert (Hw : noWhitespace (ToLower caseLower z)).
  { apply noWhitespace_ToLower, replaceRuns_noWhitespace,
      noWhitespace_underscore. }
  rewrite (TrimSpace_fixed _ Ht), (replaceRuns_fixed _ _ Hw).
  apply ToLower_idem.
Qed.

End Normalization.

Lemma normalizeAgentName_idempotent_witness :
  let x := [Rune 0x20; Rune 0xC9; Rune 0x20; Rune 0x0A; BadByte 0xFF;
            Rune 0x0B; Rune 0x41; Rune 0xA0] in
  normalizeAgentName latin1Lower x
  = [Rune 0xE9; Rune 0x5F; Rune 0xFFFD; Rune 0x0B; Rune 0x61]
  /\ normalizeAgentName latin1Lower (normalizeAgentName latin1Lower x)
     = normalizeAgentName latin1Lower x.
Proof.
  split; [reflexivity|].
  apply (normalizeAgentName_idempotent latin1Lower).
  - intros r Hr. unfold unicode_ToLower, latin1Lower. rune_cases.
  - intros r Hr. unfold unicode_IsSpace, latin1Lower. intro H. rune_cases.
  - reflexivity.
Defined.

(** ** The handoff protocol *)

Section Handoff.

Variable context_Context : Type.
Variable caseLower : N -> N.

Local Abbreviation handoffPrefix := (lit "__HANDOFF__").

Lemma HasPrefix_startsWith (s : gostring) :
  HasPrefix s handoffPrefix = true <-> startsWithHandoffPrefix s.
Proof.
  split.
  - apply HasPrefix_inv.
  - intros [rest ->]. apply HasPrefix_app.
Qed.

Lemma HasPrefix_not_startsWith (s : gostring) :
  ~ startsWithHandoffPrefix s -> HasPrefix s handoffPrefix = false.
Proof.
  intro H. destruct (HasPrefix s handoffPrefix) eqn:E; [|reflexivity].
  exfalso. apply H, HasPrefix_startsWith, E.
Qed.

Lemma isHandoffResponse_marker (t : gostring) :
  isHandoffResponse (handoffPrefix ++ t) = (true, t).
Proof.
  unfold isHandoffResponse.
  rewrite HasPrefix_app, TrimPrefix_app. reflexivity.
Qed.

Lemma isHandoffResponse_other (s : gostring) :
  ~ startsWithHandoffPrefix s -> isHandoffResponse s = (false, []).
Proof.
  intro H. unfold isHandoffResponse.
  rewrite (HasPrefix_not_startsWith H). reflexivity.
Qed.

(** C2. The tool built for a target answers every input with the reserved
    prefix followed by the target and no error; decoding that answer gives
    back the target and [true]; decoding a string that does not start
    with the prefix gives the empty string and [false]. *)
Theorem handoff_roundtrip :
  (forall (config : HandoffToolConfig) (ctx : context_Context)
          (input : gostring),
      let tool := CreateHandoffTool caseLower config in
      handoffTool_Call tool ctx input
      = (lit "__HANDOFF__" ++ cfgAgentName config, None)
      /\ ParseHandoffResult (fst (handoffTool_Call tool ctx input))
         = (cfgAgentName config, true))
  /\ (forall s : gostring,
         ~ startsWithHandoffPrefix s -> ParseHandoffResult s = ([], false)).
Proof.
  split.
  - intros config ctx input tool. split; [reflexivity|].
    unfold tool, handoffTool_Call, CreateHandoffTool, ParseHandoffResult.
    cbn [fst agentName].
    rewrite HasPrefix_app, TrimPrefix_app. reflexivity.
  - intros s H. unfold ParseHandoffResult.
    rewrite (HasPrefix_not_startsWith H). reflexivity.
Qed.

(** C4. Applying the marker for [t] sets [ActiveAgent] to [t] and appends
    exactly one tool-role message, "Successfully transferred to t", to the
    messages; [SwarmState] has no other field.  A response that is not a
    marker leaves the state as it is and answers [false].  The command
    built for [t] carries the same target and the same message. *)
Theorem processHandoff_applies :
  (forall (s : SwarmState) (t : gostring),
      processHandoff s (lit "__HANDOFF__" ++ t)
      = ({| Messages := Messages s ++ [transferMessage t];
            ActiveAgent := t |}, true))
  /\ (forall (s : SwarmState) (r : gostring),
         ~ startsWithHandoffPrefix r -> processHandoff s r = (s, false))
  /\ (forall t toolCallID : gostring,
         CreateHandoffCommand t toolCallID
         = {| Goto := t;
              Update := [ (lit "messages", UpdateMessages [transferMessage t]);
                          (lit "active_agent", UpdateString t) ] |}).
Proof.
  split; [|split].
  - intros s t. unfold processHandoff.
    rewrite isHandoffResponse_marker. reflexivity.
  - intros s r H. unfold processHandoff.
    rewrite (isHandoffResponse_other H). reflexivity.
  - reflexivity.
Qed.

(** C5, as the code has it.  A handoff that is applied leaves in
    [ActiveAgent] the target carried by the marker, whatever it is: the
    result names a registered agent exactly when the marker's target
    does. *)
Theorem processHandoff_target_unchecked
  (s s' : SwarmState) (r : gostring) (registered : list gostring) :
  processHandoff s r = (s', true) ->
  ActiveAgent s' = TrimPrefix r (lit "__HANDOFF__")
  /\ (In (ActiveAgent s') registered
      <-> In (TrimPrefix r (lit "__HANDOFF__")) registered).
Proof.
  unfold processHandoff, isHandoffResponse.
  destruct (HasPrefix r (lit "__HANDOFF__")); intro H; inversion H.
  simpl. split; [reflexivity | tauto].
Qed.

(** C8. Without a name the tool is called "transfer_to_" followed by the
    normalized target, without a description it is described as
    "Ask agent '<target>' for help" with the target as given; a name or a
    description that is supplied is used as it is. *)
Theorem CreateHandoffTool_defaults :
  (forall target nm desc : gostring,
      handoffTool_Name
        (CreateHandoffTool caseLower (mkHandoffToolConfig target [] desc))
      = lit "transfer_to_" ++ normalizeAgentName caseLower target
      /\ handoffTool_Description
           (CreateHandoffTool caseLower (mkHandoffToolConfig target nm []))
         = lit "Ask agent '" ++ target ++ lit "' for help"
      /\ (nm <> [] ->
          handoffTool_Name
            (CreateHandoffTool caseLower (mkHandoffToolConfig target nm desc))
          = nm)
      /\ (desc <> [] ->
          handoffTool_Description
            (CreateHandoffTool caseLower (mkHandoffToolConfig target nm desc))
          = desc))
  /\ handoffTool_Name
       (CreateHandoffTool caseLower (mkHandoffToolConfig (lit "Bob") [] []))
     = lit "transfer_to_bob"
  /\ handoffTool_Description
       (CreateHandoffTool caseLower (mkHandoffToolConfig (lit "Bob") [] []))
     = lit "Ask agent 'Bob' for help".
Proof.
  split; [|split; reflexivity].
  intros target nm desc. repeat split.
  - intro H. unfold CreateHandoffTool, handoffTool_Name. simpl.
    apply gostring_eqb_neq in H. rewrite H. reflexivity.
  - intro H. unfold CreateHandoffTool, handoffTool_Description. simpl.
    apply gostring_eqb_neq in H. rewrite H. reflexivity.
Qed.

End Handoff.

(** ** Building the graphs *)

Section Graphs.

Variable context_Context : Type.
Variable StateGraph_AddConditionalEdges : bool.

Local Abbreviation Agent := (Agent context_Context).
Local Abbreviation SwarmConfig := (SwarmConfig context_Context).
Local Abbreviation StateGraph := (StateGraph context_Context).
Local Abbreviation GraphCall := (GraphCall context_Context).
Local Abbreviation CreateSwarm' :=
  (@CreateSwarm context_Context StateGraph_AddConditionalEdges).

Lemma found_In (agentNames : list gostring) (d : gostring) :
  found agentNames d = true <-> In d agentNames.
Proof.
  unfold found. rewrite existsb_exists. split.
  - intros [n [Hin Heq]]. apply gostring_eqb_eq in Heq. subst n. exact Hin.
  - intro Hin. exists d. split; [exact Hin | apply gostring_eqb_refl].
Qed.

Lemma found_agent (agents : list Agent) (d : gostring) :
  found (map (@Name _) agents) d = true
  <-> exists a, In a agents /\ Name a = d.
Proof.
  rewrite found_In, in_map_iff. split; intros [a [H1 H2]]; exists a; tauto.
Qed.

Lemma not_found_agent (agents : list Agent) (d : gostring) :
  (forall a, In a agents -> Name a <> d) ->
  found (map (@Name _) agents) d = false.
Proof.
  intro H. destruct (found (map (@Name _) agents) d) eqn:E; [|reflexivity].
  apply found_agent in E as [a [Hin Heq]]. exfalso. exact (H a Hin Heq).
Qed.

Lemma length_eqb_0 (A : Type) (l : list A) :
  Nat.eqb (List.length l) 0 = true <-> l = [].
Proof. destruct l; simpl; split; intro H; congruence. Qed.

Lemma calls_addEdges (n : gostring) (dests : list gostring) (g : StateGraph) :
  calls (fold_left (fun g dest => call g (AddEdge n dest)) dests g)
  = calls g ++ map (fun dest => AddEdge n dest) dests.
Proof.
  revert g. induction dests as [|d dests IH]; intro g; simpl.
  - symmetry. apply app_nil_r.
  - rewrite IH. simpl. rewrite <- app_assoc. reflexivity.
Qed.

Lemma calls_addAgent (g : StateGraph) (a : Agent) :
  calls (addAgent g a) = calls g ++ agentCalls a.
Proof.
  unfold addAgent, agentCalls. rewrite calls_addEdges. simpl.
  rewrite <- app_assoc. reflexivity.
Qed.

Lemma calls_addAgents (agents : list Agent) (g : StateGraph) :
  calls (fold_left (@addAgent _) agents g)
  = calls g ++ flat_map agentCalls agents.
Proof.
  revert g. induction agents as [|a agents IH]; intro g; simpl.
  - symmetry. apply app_nil_r.
  - rewrite IH, calls_addAgent, <- app_assoc. reflexivity.
Qed.

Lemma calls_addStreamingNodes (agents : list Agent)
  (g : StreamingStateGraph context_Context) :
  streamingCalls (fold_left (@addStreamingNode _) agents g)
  = streamingCalls g ++ map streamingNodeCall agents.
Proof.
  revert g. induction agents as [|a agents IH]; intro g; simpl.
  - symmetry. apply app_nil_r.
  - rewrite IH. simpl. rewrite <- app_assoc. reflexivity.
Qed.

Lemma calls_addStreamingEdges (agents : list Agent)
  (g : StreamingStateGraph context_Context) :
  streamingCalls (fold_left (@addStreamingEdge _) agents g)
  = streamingCalls g ++ map streamingEdgeCall agents.
Proof.
  revert g. induction agents as [|a agents IH]; intro g; simpl.
  - symmetry. apply app_nil_r.
  - rewrite IH. unfold addStreamingEdge, streamingEdgeCall at 2.
    destruct (Destinations a); simpl; rewrite <- app_assoc; reflexivity.
Qed.

(** Every call made by a successful [CreateSwarm], in order. *)
Lemma CreateSwarm_calls (config : SwarmConfig) (g : StateGraph) :
  CreateSwarm' config = (Some g, None) ->
  calls g
  = (if StateGraph_AddConditionalEdges
     then [AddConditionalEdges (lit "__start__")
             (routeFunc (DefaultActiveAgent config))
             (fold_left (fun m name => mapAssign m name name)
                (map (@Name _) (Agents config)) [])]
     else [])
    ++ flat_map agentCalls (Agents config).
Proof.
  unfold CreateSwarm, addActiveAgentRouter, graph_NewStateGraph.
  destruct (Nat.eqb (List.length (Agents config)) 0); [discriminate|].
  destruct (found _ _); simpl; [|discriminate].
  destruct StateGraph_AddConditionalEdges; simpl;
    intro H; inversion H; rewrite calls_addAgents; reflexivity.
Qed.

(** Every call made by a successful [CreateStreamingSwarm], in order. *)
Lemma CreateStreamingSwarm_calls (config : SwarmConfig)
  (g : StreamingStateGraph context_Context) :
  CreateStreamingSwarm config = (Some g, None) ->
  streamingCalls g
  = SetEntryPoint (DefaultActiveAgent config)
    :: map streamingNodeCall (Agents config)
    ++ map streamingEdgeCall (Agents config).
Proof.
  unfold CreateStreamingSwarm.
  destruct (Nat.eqb (List.length (Agents config)) 0); [discriminate|].
  destruct (found _ _); simpl; [|discriminate].
  intro H. inversion H.
  rewrite calls_addStreamingEdges, calls_addStreamingNodes. reflexivity.
Qed.

(** C1. The router that [addActiveAgentRouter] installs at "__start__"
    answers with the state's active agent whenever that is not empty and
    with the configured default when it is empty, whatever the messages
    are. *)
Theorem activeAgentRouter_routes
  (g g' : StateGraph) (agentNames : list gostring) (d : gostring) :
  addActiveAgentRouter g agentNames d = (g', None) ->
  hasAddConditionalEdges g = true ->
  exists route pathMap,
    calls g' = calls g ++ [AddConditionalEdges (lit "__start__") route pathMap]
    /\ forall (messages : list MessageContent) (active : gostring),
        (active <> [] -> route (mkSwarmState messages active) = active)
        /\ route (mkSwarmState messages []) = d.
Proof.
  unfold addActiveAgentRouter. intros H Hm.
  destruct (found agentNames d); simpl in H; [|discriminate].
  rewrite Hm in H. inversion H. subst g'.
  eexists. eexists. split; [reflexivity|].
  intros messages active. split; [|reflexivity].
  intro Ha. unfold routeFunc. simpl.
  apply gostring_eqb_neq in Ha. rewrite Ha. reflexivity.
Qed.

(** C3. Both builders fail without a graph on an empty agent list and on
    a default active agent that no agent is named after; they succeed
    with a graph on every configuration that has an agent named after the
    default. *)
Theorem build_validation (config : SwarmConfig) :
  (Agents config = [] ->
     (exists e, CreateSwarm' config = (None, Some e))
     /\ (exists e, CreateStreamingSwarm config = (None, Some e)))
  /\ ((forall a, In a (Agents config) -> Name a <> DefaultActiveAgent config) ->
        (exists e, CreateSwarm' config = (None, Some e))
        /\ (exists e, CreateStreamingSwarm config = (None, Some e)))
  /\ (Agents config <> [] ->
      (exists a, In a (Agents config) /\ Name a = DefaultActiveAgent config) ->
        (exists g, CreateSwarm' config = (Some g, None))
        /\ (exists g, CreateStreamingSwarm config = (Some g, None))).
Proof.
  unfold CreateSwarm, CreateStreamingSwarm,
    addActiveAgentRouter, graph_NewStateGraph.
  split; [|split].
  - intro H. apply length_eqb_0 in H. rewrite H.
    split; eexists; reflexivity.
  - intro H. rewrite (not_found_agent _ H). simpl.
    destruct (Nat.eqb _ 0); split; eexists; reflexivity.
  - intros Hne Hd.
    destruct (Nat.eqb _ 0) eqn:E; [apply length_eqb_0 in E; contradiction|].
    apply found_agent in Hd. rewrite Hd. simpl.
    destruct StateGraph_AddConditionalEdges; split; eexists; reflexivity.
Qed.

Lemma conditionFunc_routes (a : Agent) (ctx : context_Context)
  (state : SwarmState) :
  (handsOff a state -> conditionFunc a ctx state = ActiveAgent state)
  /\ (~ handsOff a state -> conditionFunc a ctx state = graph_END).
Proof.
  unfold handsOff, conditionFunc.
  destruct (gostring_eqb (ActiveAgent state) []) eqn:E1; simpl.
  { apply gostring_eqb_eq in E1. split; [intros [H _]; contradiction|].
    reflexivity. }
  destruct (gostring_eqb (ActiveAgent state) (Name a)) eqn:E2; simpl.
  { apply gostring_eqb_eq in E2. split; [intros [_ [H _]]; contradiction|].
    reflexivity. }
  apply gostring_eqb_neq in E1, E2.
  destruct (existsb _ (Destinations a)) eqn:E3.
  - split; [reflexivity|]. intro H. exfalso. apply H.
    apply existsb_exists in E3 as [dest [Hin Heq]].
    apply gostring_eqb_eq in Heq. subst dest. auto.
  - split; [|reflexivity]. intros [_ [_ Hin]].
    assert (existsb (fun dest => gostring_eqb dest (ActiveAgent state))
              (Destinations a) = true) as E4.
    { apply existsb_exists. exists (ActiveAgent state).
      split; [exact Hin | apply gostring_eqb_refl]. }
    congruence.
Qed.

(** C6. In the graph that [CreateStreamingSwarm] returns, an agent with
    destinations has a conditional edge whose function answers with the
    state's active agent when that is not empty, is not the agent's own
    name and is one of the agent's destinations, and with END otherwise;
    an agent without destinations has a plain edge to END; the graph has
    no other edge. *)
Theorem streaming_transitions (config : SwarmConfig)
  (g : StreamingStateGraph context_Context) :
  CreateStreamingSwarm config = (Some g, None) ->
  (forall a, In a (Agents config) ->
      (Destinations a <> [] ->
         In (AddConditionalEdge (Name a) (conditionFunc a)) (streamingCalls g))
      /\ (Destinations a = [] ->
            In (AddEdge (Name a) graph_END) (streamingCalls g)))
  /\ (forall from condition,
         In (AddConditionalEdge from condition) (streamingCalls g) ->
         exists a, In a (Agents config) /\ Destinations a <> []
                   /\ from = Name a /\ condition = conditionFunc a)
  /\ (forall from to,
         In (AddEdge from to) (streamingCalls g) ->
         exists a, In a (Agents config) /\ Destinations a = []
                   /\ from = Name a /\ to = graph_END)
  /\ (forall (a : Agent) (ctx : context_Context) (state : SwarmState),
         (handsOff a state -> conditionFunc a ctx state = ActiveAgent state)
         /\ (~ handsOff a state -> conditionFunc a ctx state = graph_END)).
Proof.
  intro H. rewrite (CreateStreamingSwarm_calls _ H).
  split; [|split; [|split]].
  - intros a Hin. split; intro Hd; right; apply in_or_app; right;
      apply in_map_iff; exists a; (split; [|exact Hin]);
      unfold streamingEdgeCall; destruct (Destinations a);
      congruence.
  - intros from condition [Hc|Hc]; [discriminate|].
    apply in_app_or in Hc as [Hc|Hc]; apply in_map_iff in Hc as [a [Ha Hin]].
    + discriminate.
    + unfold streamingEdgeCall in Ha. exists a.
      destruct (Destinations a); [discriminate|].
      inversion Ha. repeat split; [exact Hin | discriminate].
  - intros from to [Hc|Hc]; [discriminate|].
    apply in_app_or in Hc as [Hc|Hc]; apply in_map_iff in Hc as [a [Ha Hin]].
    + discriminate.
    + unfold streamingEdgeCall in Ha. exists a.
      destruct (Destinations a); [|discriminate].
      inversion Ha. repeat split; exact Hin.
  - apply conditionFunc_routes.
Qed.

Lemma In_agentCalls (agents : list Agent) (a : Agent) :
  In a agents ->
  In (AddNode (Name a) [] (nodeFunc a)) (flat_map agentCalls agents).
Proof.
  intro Hin. apply in_flat_map. exists a. split; [exact Hin|]. left.
  reflexivity.
Qed.

(** C7. The node registered for an agent, in either builder, answers an
    error of the agent's runnable with that very error and the state it
    was given. *)
Theorem node_propagates_error :
  (forall config g a,
      CreateSwarm' config = (Some g, None) -> In a (Agents config) ->
      In (AddNode (Name a) [] (nodeFunc a)) (calls g))
  /\ (forall config (g : StreamingStateGraph context_Context) a,
         CreateStreamingSwarm config = (Some g, None) ->
         In a (Agents config) ->
         In (AddNode (Name a) [] (streamingNodeFunc a)) (streamingCalls g))
  /\ (forall (a : Agent) dynType Invoke ctx state v e,
         Runnable a = RunnableInvoker dynType Invoke ->
         Invoke ctx state = (v, Some e) ->
         result (nodeFunc a ctx state) = (state, Some e)
         /\ result (streamingNodeFunc a ctx state) = (state, Some e)).
Proof.
  split; [|split].
  - intros config g a H Hin. rewrite (CreateSwarm_calls _ H).
    apply in_or_app. right. apply In_agentCalls, Hin.
  - intros config g a H Hin. rewrite (CreateStreamingSwarm_calls _ H).
    right. apply in_or_app. left.
    apply in_map_iff. exists a. split; [reflexivity | exact Hin].
  - intros a dynType Invoke ctx state v e Hr Hi.
    unfold nodeFunc, streamingNodeFunc. rewrite Hr. simpl.
    rewrite Hi. split; reflexivity.
Qed.

(** C10. A runnable without the expected [Invoke], and an [Invoke] that
    returns something else than a [SwarmState], make the node answer with
    the state it was given and no error; the node never adds an error of
    its own to what [Invoke] returned. *)
Theorem node_mismatch_silent (a : Agent) (ctx : context_Context)
  (state : SwarmState) :
  (lacksInvoke (Runnable a) ->
     result (nodeFunc a ctx state) = (state, None)
     /\ result (streamingNodeFunc a ctx state) = (state, None))
  /\ (forall dynType Invoke v,
         Runnable a = RunnableInvoker dynType Invoke ->
         Invoke ctx state = (v, None) ->
         notSwarmState v ->
         result (nodeFunc a ctx state) = (state, None)
         /\ result (streamingNodeFunc a ctx state) = (state, None))
  /\ (forall dynType Invoke v err,
         Runnable a = RunnableInvoker dynType Invoke ->
         Invoke ctx state = (v, err) ->
         notSwarmState v ->
         result (nodeFunc a ctx state) = (state, err)
         /\ result (streamingNodeFunc a ctx state) = (state, err)).
Proof.
  assert (Hgen : forall dynType Invoke v err,
             Runnable a = RunnableInvoker dynType Invoke ->
             Invoke ctx state = (v, err) ->
             notSwarmState v ->
             result (nodeFunc a ctx state) = (state, err)
             /\ result (streamingNodeFunc a ctx state) = (state, err)).
  { intros dynType Invoke v err Hr Hi Hv.
    unfold nodeFunc, streamingNodeFunc. rewrite Hr. simpl. rewrite Hi.
    destruct err as [e|]; [split; reflexivity|].
    destruct v as [|s|t]; try (split; reflexivity).
    exfalso. exact (Hv s eq_refl). }
  split; [|split].
  - intro H. unfold nodeFunc, streamingNodeFunc.
    destruct (Runnable a) as [|dynType Invoke|t]; try (split; reflexivity).
    exfalso. exact (H dynType Invoke eq_refl).
  - intros dynType Invoke v. apply Hgen.
  - exact Hgen.
Qed.

End Graphs.

(** ** The properties at sample values *)

Ltac not_marker :=
  let rest := fresh "rest" in
  let H := fresh "H" in
  intros [rest H]; cbv in H; discriminate H.

Lemma activeAgentRouter_routes_witness :
  let g := graph_NewStateGraph (context_Context := unit) true in
  let g' := fst (addActiveAgentRouter g [lit "Alice"; lit "Bob"] (lit "Alice"))
  in
  exists route pathMap,
    calls g' = calls g ++ [AddConditionalEdges (lit "__start__") route pathMap]
    /\ forall (messages : list MessageContent) (active : gostring),
        (active <> [] -> route (mkSwarmState messages active) = active)
        /\ route (mkSwarmState messages []) = lit "Alice".
Proof.
  intros g g'.
  apply (@activeAgentRouter_routes unit g g' [lit "Alice"; lit "Bob"]);
    reflexivity.
Defined.

Lemma handoff_roundtrip_witness :
  ParseHandoffResult
    (fst (handoffTool_Call
            (CreateHandoffTool latin1Lower
               (mkHandoffToolConfig (lit "Bob") [] []))
            tt (lit "please transfer")))
  = (lit "Bob", true)
  /\ ParseHandoffResult (lit "_HANDOFF__Bob") = ([], false).
Proof.
  split.
  - apply (proj1 (handoff_roundtrip unit latin1Lower)).
  - apply (proj2 (handoff_roundtrip unit latin1Lower)). not_marker.
Defined.

Lemma build_validation_witness :
  (exists e, CreateSwarm true noAgents = (None, Some e))
  /\ (exists e, CreateStreamingSwarm aliceOnlyDefaultBob = (None, Some e))
  /\ (exists g, CreateSwarm true aliceBob = (Some g, None))
  /\ (exists g, CreateStreamingSwarm aliceBob = (Some g, None)).
Proof.
  split; [|split; [|split]].
  - apply (proj1 (build_validation true noAgents)). reflexivity.
  - apply (proj1 (proj2 (build_validation true aliceOnlyDefaultBob))).
    intros a [<-|[]]. cbv. discriminate.
  - apply (proj2 (proj2 (build_validation true aliceBob))).
    + discriminate.
    + exists alice. split; [left|]; reflexivity.
  - apply (proj2 (proj2 (build_validation true aliceBob))).
    + discriminate.
    + exists alice. split; [left|]; reflexivity.
Defined.

Lemma processHandoff_applies_witness :
  processHandoff helloState (lit "__HANDOFF__Bob")
  = ({| Messages := Messages helloState ++ [transferMessage (lit "Bob")];
        ActiveAgent := lit "Bob" |}, true)
  /\ processHandoff helloState (lit "The weather is sunny")
     = (helloState, false).
Proof.
  split.
  - apply (proj1 processHandoff_applies helloState (lit "Bob")).
  - apply (proj1 (proj2 processHandoff_applies)). not_marker.
Defined.

(** C5 fails on the code: with Alice and Bob registered, the marker for
    "Mallory" is applied all the same and leaves a non-empty active agent
    that no agent is named after. *)
Lemma processHandoff_unregistered_counterexample :
  let applied := processHandoff helloState (lit "__HANDOFF__Mallory") in
  (exists g, CreateSwarm true aliceBob = (Some g, None))
  /\ snd applied = true
  /\ ActiveAgent (fst applied) = lit "Mallory"
  /\ ActiveAgent (fst applied) <> []
  /\ ~ In (ActiveAgent (fst applied)) (map (@Name unit) (Agents aliceBob)).
Proof.
  cbv zeta. split; [eexists; reflexivity|].
  split; [reflexivity|]. split; [reflexivity|].
  split; [cbv; discriminate|].
  cbv. intros [H|[H|[]]]; discriminate H.
Qed.

Lemma processHandoff_target_unchecked_witness :
  let applied := processHandoff helloState (lit "__HANDOFF__Mallory") in
  ActiveAgent (fst applied)
  = TrimPrefix (lit "__HANDOFF__Mallory") (lit "__HANDOFF__")
  /\ (In (ActiveAgent (fst applied)) [lit "Alice"; lit "Bob"]
      <-> In (TrimPrefix (lit "__HANDOFF__Mallory") (lit "__HANDOFF__"))
            [lit "Alice"; lit "Bob"]).
Proof.
  intro applied.
  apply (@processHandoff_target_unchecked helloState (fst applied)
           (lit "__HANDOFF__Mallory") [lit "Alice"; lit "Bob"]).
  reflexivity.
Defined.

Lemma CreateHandoffTool_defaults_witness :
  handoffTool_Name
    (CreateHandoffTool latin1Lower
       (mkHandoffToolConfig (lit "TestAgent") (lit "test_tool")
          (lit "Test handoff tool")))
  = lit "test_tool"
  /\ handoffTool_Description
       (CreateHandoffTool latin1Lower
          (mkHandoffToolConfig (lit "TestAgent") (lit "test_tool")
             (lit "Test handoff tool")))
     = lit "Test handoff tool".
Proof.
  destruct (proj1 (CreateHandoffTool_defaults latin1Lower)
              (lit "TestAgent") (lit "test_tool") (lit "Test handoff tool"))
    as [_ [_ [Hn Hd]]].
  split; [apply Hn | apply Hd]; cbv; discriminate.
Defined.

Lemma streaming_transitions_witness :
  let g := {| streamingCalls :=
                [ SetEntryPoint (lit "Alice");
                  AddNode (lit "Alice") [] (streamingNodeFunc alice);
                  AddNode (lit "Bob") [] (streamingNodeFunc bob);
                  AddNode (lit "Carol") [] (streamingNodeFunc carol);
                  AddNode (lit "Dave") [] (streamingNodeFunc dave);
                  AddNode (lit "Erin") [] (streamingNodeFunc erin);
                  AddConditionalEdge (lit "Alice") (conditionFunc alice);
                  AddConditionalEdge (lit "Bob") (conditionFunc bob);
                  AddEdge (lit "Carol") graph_END;
                  AddEdge (lit "Dave") graph_END;
                  AddEdge (lit "Erin") graph_END ] |} in
  CreateStreamingSwarm fullSwarm = (Some g, None)
  /\ In (AddConditionalEdge (lit "Alice") (conditionFunc alice))
       (streamingCalls g)
  /\ In (AddEdge (lit "Carol") graph_END) (streamingCalls g)
  /\ conditionFunc alice tt (mkSwarmState [] (lit "Bob")) = lit "Bob"
  /\ conditionFunc alice tt (mkSwarmState [] (lit "Carol")) = graph_END
  /\ conditionFunc alice tt (mkSwarmState [] (lit "Alice")) = graph_END
  /\ conditionFunc alice tt (mkSwarmState [] []) = graph_END.
Proof.
  intro g.
  assert (H : CreateStreamingSwarm fullSwarm = (Some g, None))
    by reflexivity.
  destruct (streaming_transitions fullSwarm H) as [Hagents [_ [_ Hroute]]].
  split; [exact H|].
  split.
  { apply (proj1 (Hagents alice (or_introl eq_refl))). discriminate. }
  split.
  { apply (proj2 (Hagents carol (or_intror (or_intror (or_introl eq_refl))))).
    reflexivity. }
  split.
  { apply (proj1 (Hroute alice tt (mkSwarmState [] (lit "Bob")))).
    unfold handsOff. simpl. split; [cbv; discriminate|].
    split; [cbv; discriminate | left; reflexivity]. }
  split.
  { apply (proj2 (Hroute alice tt (mkSwarmState [] (lit "Carol")))).
    intros [_ [_ [Hin|[]]]]. cbv in Hin. discriminate Hin. }
  split.
  { apply (proj2 (Hroute alice tt (mkSwarmState [] (lit "Alice")))).
    intros [_ [Hne _]]. apply Hne. reflexivity. }
  apply (proj2 (Hroute alice tt (mkSwarmState [] []))).
  intros [Hne _]. apply Hne. reflexivity.
Defined.

Lemma node_propagates_error_witness :
  (exists g, CreateSwarm true fullSwarm = (Some g, None)
             /\ In (AddNode (Name carol) [] (nodeFunc carol)) (calls g))
  /\ result (nodeFunc carol tt helloState)
     = (helloState, Some (errorString (lit "model unavailable")))
  /\ result (streamingNodeFunc carol tt helloState)
     = (helloState, Some (errorString (lit "model unavailable"))).
Proof.
  destruct (node_propagates_error unit true) as [Hdirect [_ Herr]].
  split.
  - destruct (CreateSwarm true fullSwarm) as [[g|] [e|]] eqn:E;
      try (cbv in E; discriminate E).
    exists g. split; [reflexivity|].
    apply (Hdirect fullSwarm g carol E). right. right. left. reflexivity.
  - apply (Herr carol (lit "*failing")
             (fun _ _ => (NilValue, Some (errorString (lit "model unavailable"))))
             tt helloState NilValue); reflexivity.
Defined.

Lemma node_mismatch_silent_witness :
  result (nodeFunc erin tt helloState) = (helloState, None)
  /\ result (streamingNodeFunc erin tt helloState) = (helloState, None)
  /\ result (nodeFunc dave tt helloState) = (helloState, None)
  /\ result (streamingNodeFunc dave tt helloState) = (helloState, None).
Proof.
  destruct (node_mismatch_silent dave tt helloState) as [_ [Hvalue _]].
  destruct (node_mismatch_silent erin tt helloState) as [Hlacks _].
  split; [|split].
  - apply Hlacks. intros dynType Invoke. discriminate.
  - apply Hlacks. intros dynType Invoke. discriminate.
  - apply (Hvalue (lit "*pointer")
             (fun _ _ => (OtherValue (lit "*swarm.SwarmState"), None))
             (OtherValue (lit "*swarm.SwarmState")));
      try reflexivity; intros s; discriminate.
Defined.

(* ================================================================== *)
(** * Further properties of the package *)

(** ** More on trimming and on replacing runs *)

Lemma TrimLeftFunc_app (f : gochar -> bool) (x r : gostring) :
  TrimLeftFunc f (x ++ r)
  = match TrimLeftFunc f x with
    | [] => TrimLeftFunc f r
    | c :: t => (c :: t) ++ r
    end.
Proof.
  induction x as [|c x IH]; simpl; [reflexivity|].
  destruct (f c); [exact IH | reflexivity].
Qed.

Lemma TrimRightFunc_nil (f : gochar -> bool) (s : gostring) :
  TrimRightFunc f s = [] <-> TrimLeftFunc f (rev s) = [].
Proof.
  unfold TrimRightFunc. split; intro H.
  - apply (f_equal (@rev gochar)) in H. rewrite rev_involutive in H.
    exact H.
  - rewrite H. reflexivity.
Qed.

Lemma TrimRightFunc_app (f : gochar -> bool) (y c : gostring) :
  TrimRightFunc f (y ++ c)
  = match TrimRightFunc f c with
    | [] => TrimRightFunc f y
    | d :: u => y ++ d :: u
    end.
Proof.
  unfold TrimRightFunc. rewrite rev_app_distr, TrimLeftFunc_app.
  destruct (TrimLeftFunc f (rev c)) as [|d t] eqn:E; [reflexivity|].
  rewrite rev_app_distr, rev_involutive.
  destruct (rev (d :: t)) as [|d' u] eqn:E'; [|reflexivity].
  apply (f_equal (@List.length gochar)) in E'.
  rewrite length_rev in E'. discriminate E'.
Qed.

Lemma TrimLeftFunc_allSpace (s : gostring) :
  allSpace s <-> TrimLeftFunc isSpaceChar s = [].
Proof.
  induction s as [|c s IH]; simpl.
  - split; [reflexivity | constructor].
  - destruct (isSpaceChar c) eqn:E.
    + rewrite <- IH. split; intro H.
      * inversion H; assumption.
      * constructor; assumption.
    + split; [|discriminate]. intro H. inversion H. congruence.
Qed.

Lemma allSpace_rev (s : gostring) : allSpace s -> allSpace (rev s).
Proof. apply Forall_rev. Qed.

Lemma TrimRightFunc_allSpace (s : gostring) :
  allSpace s <-> TrimRightFunc isSpaceChar s = [].
Proof.
  rewrite TrimRightFunc_nil, <- TrimLeftFunc_allSpace. split; intro H.
  - apply allSpace_rev, H.
  - rewrite <- (rev_involutive s). apply allSpace_rev, H.
Qed.

Lemma TrimSpace_allSpace (s : gostring) : allSpace s <-> TrimSpace s = [].
Proof.
  unfold TrimSpace. split.
  - intro H. apply TrimLeftFunc_allSpace in H. rewrite H. reflexivity.
  - intro H. apply TrimRightFunc_allSpace, TrimLeftFunc_allSpace in H.
    rewrite (TrimLeftFunc_fixed _ (headOK_TrimLeftFunc s)) in H.
    apply TrimLeftFunc_allSpace, H.
Qed.

Lemma TrimSpace_surrounded (l x r : gostring) :
  allSpace l -> allSpace r -> TrimSpace (l ++ x ++ r) = TrimSpace x.
Proof.
  intros Hl Hr. unfold TrimSpace.
  apply TrimLeftFunc_allSpace in Hl. apply TrimRightFunc_allSpace in Hr.
  rewrite TrimLeftFunc_app, Hl, TrimLeftFunc_app.
  destruct (TrimLeftFunc isSpaceChar x) as [|c t] eqn:E.
  - apply TrimRightFunc_allSpace in Hr. apply TrimLeftFunc_allSpace in Hr.
    rewrite Hr. reflexivity.
  - rewrite TrimRightFunc_app, Hr. reflexivity.
Qed.

Lemma whitespaceRun_allSpace (r : gostring) : whitespaceRun r -> allSpace r.
Proof.
  intros [_ H]. induction H as [|c r Hc _ IH]; constructor.
  - apply matchesWhitespace_isSpaceChar, Hc.
  - exact IH.
Qed.

Lemma replaceRuns_app (repl : gostring) (b : bool) (t u : gostring) :
  replaceRuns repl b (t ++ u)
  = replaceRuns repl b t ++ replaceRuns repl (runState b t) u.
Proof.
  revert b. induction t as [|c t IH]; intro b; simpl; [reflexivity|].
  destruct (matchesWhitespace c).
  - destruct b; rewrite IH; [reflexivity | apply app_assoc].
  - rewrite IH. reflexivity.
Qed.

Lemma runState_app (b : bool) (t u : gostring) :
  runState b (t ++ u) = runState (runState b t) u.
Proof.
  revert b. induction t as [|c t IH]; intro b; simpl; [reflexivity|].
  apply IH.
Qed.

Lemma replaceRuns_run (repl : gostring) (b : bool) (r : gostring) :
  whitespaceRun r ->
  replaceRuns repl b r = (if b then [] else repl) /\ runState b r = true.
Proof.
  intros [Hne H]. revert b.
  induction H as [|c r Hc Hr IH]; intro b; [contradiction|].
  simpl. rewrite Hc. destruct r as [|d r].
  - simpl. destruct b; [|rewrite app_nil_r]; split; reflexivity.
  - assert (Hd : d :: r <> []) by discriminate.
    destruct (IH Hd true) as [E1 E2]. rewrite E1, E2.
    destruct b; [|rewrite app_nil_r]; split; reflexivity.
Qed.

Lemma replaceRuns_around_run (repl : gostring) (b : bool)
  (t r1 r2 u : gostring) :
  whitespaceRun r1 -> whitespaceRun r2 ->
  replaceRuns repl b (t ++ r1 ++ u) = replaceRuns repl b (t ++ r2 ++ u).
Proof.
  intros H1 H2. rewrite !replaceRuns_app.
  destruct (replaceRuns_run repl (runState b t) H1) as [E1 S1].
  destruct (replaceRuns_run repl (runState b t) H2) as [E2 S2].
  rewrite E1, E2, S1, S2. reflexivity.
Qed.

Lemma TrimSpace_around_run (a r c : gostring) :
  whitespaceRun r ->
  TrimSpace (a ++ r ++ c)
  = match TrimLeftFunc isSpaceChar a, TrimRightFunc isSpaceChar c with
    | [], _ => TrimSpace c
    | t, [] => TrimRightFunc isSpaceChar t
    | t, u => t ++ r ++ u
    end.
Proof.
  intro Hr. pose proof (whitespaceRun_allSpace Hr) as Hs.
  unfold TrimSpace. rewrite TrimLeftFunc_app.
  destruct (TrimLeftFunc isSpaceChar a) as [|x t] eqn:Ea.
  - rewrite TrimLeftFunc_app.
    apply TrimLeftFunc_allSpace in Hs. rewrite Hs. reflexivity.
  - rewrite app_assoc, TrimRightFunc_app.
    destruct (TrimRightFunc isSpaceChar c) as [|y u] eqn:Ec.
    + rewrite TrimRightFunc_app.
      apply TrimRightFunc_allSpace in Hs. rewrite Hs. reflexivity.
    + rewrite <- app_assoc. reflexivity.
Qed.

Lemma length_TrimLeftFunc (f : gochar -> bool) (s : gostring) :
  (List.length (TrimLeftFunc f s) <= List.length s)%nat.
Proof.
  induction s as [|c s IH]; simpl; [lia|]. destruct (f c); simpl; lia.
Qed.

Lemma length_TrimSpace (s : gostring) :
  (List.length (TrimSpace s) <= List.length s)%nat.
Proof.
  unfold TrimSpace, TrimRightFunc. rewrite length_rev.
  pose proof (length_TrimLeftFunc isSpaceChar
                (rev (TrimLeftFunc isSpaceChar s))) as H1.
  rewrite length_rev in H1.
  pose proof (length_TrimLeftFunc isSpaceChar s). lia.
Qed.

Lemma length_replaceRuns (b : bool) (c : gochar) (s : gostring) :
  (List.length (replaceRuns [c] b s) <= List.length s)%nat.
Proof.
  revert b. induction s as [|d s IH]; intro b; simpl; [lia|].
  destruct (matchesWhitespace d).
  - destruct b; simpl; [specialize (IH true) | specialize (IH true)]; lia.
  - simpl. specialize (IH false). lia.
Qed.

(** ** The normal form of agent names *)

Lemma latin1Lower_idem (r : N) :
  0x7F < r -> unicode_ToLower latin1Lower (latin1Lower r) = latin1Lower r.
Proof. intro Hr. unfold unicode_ToLower, latin1Lower. rune_cases. Qed.

Lemma latin1Lower_space (r : N) :
  0x7F < r -> unicode_IsSpace (latin1Lower r) = true -> latin1Lower r = r.
Proof.
  intros Hr. unfold unicode_IsSpace, latin1Lower. intro H. rune_cases.
Qed.

Lemma latin1Lower_RuneError : latin1Lower RuneError = RuneError.
Proof. reflexivity. Qed.

Lemma replaceRuns_nil_inv (repl : gostring) (t : gostring) :
  headOK t = true -> replaceRuns repl false t = [] -> t = [].
Proof.
  destruct t as [|c t]; [reflexivity|]. simpl. intros H.
  rewrite (headOK_not_matched _ H). discriminate.
Qed.

Lemma normalizeAgentName_nil (caseLower : N -> N) (x : gostring) :
  normalizeAgentName caseLower x = [] <-> allSpace x.
Proof.
  unfold normalizeAgentName, whitespaceRe_ReplaceAllString, ToLower.
  rewrite TrimSpace_allSpace. split; intro H.
  - apply map_eq_nil in H. apply replaceRuns_nil_inv in H; [exact H|].
    pose proof (TrimSpace_trimmed x) as Ht. unfold trimmed in Ht.
    apply andb_true_iff in Ht. tauto.
  - rewrite H. reflexivity.
Qed.

Section CanonicalNames.

Variable caseLower : N -> N.

Hypothesis caseLower_idem :
  forall r, 0x7F < r -> unicode_ToLower caseLower (caseLower r) = caseLower r.
Hypothesis caseLower_space :
  forall r, 0x7F < r ->
    unicode_IsSpace (caseLower r) = true -> caseLower r = r.
Hypothesis caseLower_RuneError : caseLower RuneError = RuneError.

Lemma lowerChar_shape (c : gochar) :
  isRune (lowerChar caseLower c) = true
  /\ isAsciiUpper (lowerChar caseLower c) = false.
Proof.
  destruct c as [r|b]; simpl; split; try reflexivity.
  destruct (N.leb_spec r 0x7F) as [Hr|Hr].
  - unfold unicode_ToLower. rune_cases.
  - pose proof (caseLower_idem Hr) as Hi.
    unfold unicode_ToLower in *.
    destruct (N.leb_spec r 0x7F); [lia|].
    destruct (N.leb_spec (caseLower r) 0x7F);
      destruct ((0x41 <=? caseLower r) && (caseLower r <=? 0x5A)) eqn:E;
      try reflexivity; try lia.
    apply andb_true_iff in E as [E1 E2].
    apply N.leb_le in E1, E2. lia.
Qed.

(** X1. Every normalized name is free of characters matched by [\s], has
    no white space at either end, consists of code points only and
    contains no ASCII capital; nor does a default tool name contain a
    character matched by [\s]. *)
Theorem normalizeAgentName_canonical (x desc : gostring) :
  let y := normalizeAgentName caseLower x in
  trimmed y = true
  /\ noWhitespace y
  /\ Forall (fun c => isRune c = true /\ isAsciiUpper c = false) y
  /\ noWhitespace
       (handoffTool_Name
          (CreateHandoffTool caseLower (mkHandoffToolConfig x [] desc))).
Proof.
  intro y.
  assert (Hw : noWhitespace y).
  { apply (@noWhitespace_ToLower caseLower caseLower_space caseLower_RuneError),
      replaceRuns_noWhitespace, noWhitespace_underscore. }
  split; [|split; [exact Hw|split]].
  - apply (@trimmed_ToLower caseLower caseLower_space caseLower_RuneError),
      trimmed_replaceRuns, TrimSpace_trimmed.
  - unfold y, normalizeAgentName, ToLower. apply Forall_map.
    apply Forall_forall. intros c _. apply lowerChar_shape.
  - unfold CreateHandoffTool, handoffTool_Name. simpl.
    repeat (apply Forall_cons; [reflexivity|]). exact Hw.
Qed.

(** X2. The names that normalization leaves as they are, are exactly
    those without white space at the ends, without a character matched by
    [\s] and in lower case. *)
Theorem normalizeAgentName_fixed_points (s : gostring) :
  normalizeAgentName caseLower s = s
  <-> (trimmed s = true /\ noWhitespace s /\ ToLower caseLower s = s).
Proof.
  split.
  - intro H. rewrite <- H.
    split; [|split].
    + apply (@trimmed_ToLower caseLower caseLower_space caseLower_RuneError),
        trimmed_replaceRuns, TrimSpace_trimmed.
    + apply (@noWhitespace_ToLower caseLower caseLower_space caseLower_RuneError),
        replaceRuns_noWhitespace, noWhitespace_underscore.
    + unfold normalizeAgentName.
      apply (@ToLower_idem caseLower caseLower_idem caseLower_RuneError).
  - intros [Ht [Hw Hl]].
    unfold normalizeAgentName, whitespaceRe_ReplaceAllString.
    rewrite (TrimSpace_fixed _ Ht), (replaceRuns_fixed _ _ Hw). exact Hl.
Qed.

End CanonicalNames.

(** X3. A name is normalized to the empty string exactly when it consists
    of white space only (the empty name included); the default tool name
    of such a target is the bare "transfer_to_". *)
Theorem normalizeAgentName_blank (caseLower : N -> N) (x desc : gostring) :
  (normalizeAgentName caseLower x = [] <-> allSpace x)
  /\ (allSpace x ->
      handoffTool_Name
        (CreateHandoffTool caseLower (mkHandoffToolConfig x [] desc))
      = lit "transfer_to_").
Proof.
  split; [apply normalizeAgentName_nil|].
  intro H. apply (normalizeAgentName_nil caseLower) in H.
  unfold CreateHandoffTool, handoffTool_Name. simpl. rewrite H.
  reflexivity.
Qed.

(** X4. White space around a name does not change its normal form. *)
Theorem normalizeAgentName_surrounding_space
  (caseLower : N -> N) (l x r : gostring) :
  allSpace l -> allSpace r ->
  normalizeAgentName caseLower (l ++ x ++ r) = normalizeAgentName caseLower x.
Proof.
  intros Hl Hr. unfold normalizeAgentName.
  rewrite (TrimSpace_surrounded x Hl Hr). reflexivity.
Qed.

(** X5. The normal form does not depend on which characters matched by
    [\s] separate two parts of a name, nor on how many. *)
Theorem normalizeAgentName_run_length
  (caseLower : N -> N) (a r1 r2 c : gostring) :
  whitespaceRun r1 -> whitespaceRun r2 ->
  normalizeAgentName caseLower (a ++ r1 ++ c)
  = normalizeAgentName caseLower (a ++ r2 ++ c).
Proof.
  intros H1 H2. unfold normalizeAgentName, whitespaceRe_ReplaceAllString.
  rewrite (TrimSpace_around_run a c H1), (TrimSpace_around_run a c H2).
  destruct (TrimLeftFunc isSpaceChar a) as [|x t]; [reflexivity|].
  destruct (TrimRightFunc isSpaceChar c) as [|y u]; [reflexivity|].
  f_equal. apply replaceRuns_around_run; assumption.
Qed.

(** X6. Normalization never lengthens a name, counted in characters. *)
Theorem normalizeAgentName_length (caseLower : N -> N) (x : gostring) :
  (List.length (normalizeAgentName caseLower x) <= List.length x)%nat.
Proof.
  unfold normalizeAgentName, whitespaceRe_ReplaceAllString, ToLower.
  rewrite length_map.
  pose proof (length_replaceRuns false (Rune 0x5F) (TrimSpace x)) as H1.
  pose proof (length_TrimSpace x) as H2.
  change (lit "_") with [Rune 0x5F]. lia.
Qed.

(** ** Decoding and applying handoffs *)

Lemma ParseHandoffResult_cases (r : gostring) :
  (exists t, r = lit "__HANDOFF__" ++ t /\ ParseHandoffResult r = (t, true)
             /\ isHandoffResponse r = (true, t))
  \/ (~ startsWithHandoffPrefix r /\ ParseHandoffResult r = ([], false)
      /\ isHandoffResponse r = (false, [])).
Proof.
  unfold ParseHandoffResult, isHandoffResponse.
  destruct (HasPrefix r (lit "__HANDOFF__")) eqn:E.
  - left. apply HasPrefix_inv in E as [t ->]. exists t.
    rewrite TrimPrefix_app. repeat split.
  - right. repeat split. intros [t ->]. rewrite HasPrefix_app in E.
    discriminate E.
Qed.

Lemma processHandoff_cases (s : SwarmState) (r : gostring) :
  (exists t, r = lit "__HANDOFF__" ++ t
             /\ processHandoff s r
                = ({| Messages := Messages s ++ [transferMessage t];
                      ActiveAgent := t |}, true))
  \/ (~ startsWithHandoffPrefix r /\ processHandoff s r = (s, false)).
Proof.
  unfold processHandoff.
  destruct (ParseHandoffResult_cases r) as [[t [-> [_ E]]]|[Hn [_ E]]];
    rewrite E.
  - left. exists t. split; reflexivity.
  - right. split; [exact Hn | reflexivity].
Qed.

(** X7. Decoding inverts encoding: a result decoded as a handoff to [t]
    is the reserved prefix followed by [t]; a result decoded as no handoff
    does not start with the prefix and yields the empty target; and the
    private decoder [isHandoffResponse] gives the same answer. *)
Theorem ParseHandoffResult_inverse (r t : gostring) :
  (ParseHandoffResult r = (t, true) -> r = lit "__HANDOFF__" ++ t)
  /\ (ParseHandoffResult r = (t, false) ->
      t = [] /\ ~ startsWithHandoffPrefix r)
  /\ isHandoffResponse r
     = (snd (ParseHandoffResult r), fst (ParseHandoffResult r)).
Proof.
  destruct (ParseHandoffResult_cases r) as [[u [Hr [E1 E2]]]|[Hn [E1 E2]]];
    rewrite E1, E2; (split; [|split]); try reflexivity; intro H;
    inversion H; subst; auto.
Qed.

Lemma last_cons_default (A : Type) (l : list A) (a d d' : A) :
  last (a :: l) d = last (a :: l) d'.
Proof.
  revert a. induction l as [|b l IH]; intro a; [reflexivity|].
  change (last (b :: l) d = last (b :: l) d'). apply IH.
Qed.

(** X8. Tool responses applied in order leave the earlier messages in
    place, append one transfer message for every marker, in order, and
    leave as active agent the target of the last marker, or the former
    active agent when there was no marker. *)
Theorem processHandoffs_appends (s : SwarmState) (responses : list gostring) :
  let s' := processHandoffs s responses in
  Messages s'
  = Messages s ++ map transferMessage (handoffTargets responses)
  /\ ActiveAgent s' = last (handoffTargets responses) (ActiveAgent s).
Proof.
  unfold processHandoffs, handoffTargets. revert s.
  induction responses as [|r rs IH]; intro s; simpl.
  - rewrite app_nil_r. split; reflexivity.
  - destruct (IH (fst (processHandoff s r))) as [IH1 IH2].
    rewrite IH1, IH2. clear IH IH1 IH2.
    set (rest := flat_map _ rs).
    destruct (ParseHandoffResult_cases r) as [[t [Hr [P _]]]|[Hn [P _]]];
      rewrite P.
    + subst r.
      destruct (processHandoff_cases s (lit "__HANDOFF__" ++ t))
        as [[u [Hu E]]|[Hn _]].
      * apply app_inv_head in Hu. subst u. rewrite E. simpl.
        rewrite <- app_assoc. split; [reflexivity|].
        destruct rest as [|g rest]; [reflexivity|].
        apply last_cons_default.
      * exfalso. apply Hn. exists t. reflexivity.
    + destruct (processHandoff_cases s r) as [[u [Hu _]]|[_ E]].
      * exfalso. apply Hn. exists u. exact Hu.
      * rewrite E. split; reflexivity.
Qed.

Section HandoffRouting.

Variable context_Context : Type.
Variable caseLower : N -> N.

(** X9. From tool to router: after the response of a handoff tool for a
    non-empty target is applied, the router answers with that target,
    as given and whatever the default is; a marker without a target makes
    the router fall back to the default; a response that is no marker
    does not change what the router answers. *)
Theorem handoff_then_route (s : SwarmState) (d : gostring) :
  (forall (config : HandoffToolConfig) (ctx : context_Context)
          (input : gostring),
      cfgAgentName config <> [] ->
      routeFunc d
        (fst (processHandoff s
                (fst (handoffTool_Call (CreateHandoffTool caseLower config)
                        ctx input))))
      = cfgAgentName config)
  /\ routeFunc d (fst (processHandoff s (lit "__HANDOFF__"))) = d
  /\ (forall r, ~ startsWithHandoffPrefix r ->
                routeFunc d (fst (processHandoff s r)) = routeFunc d s).
Proof.
  split; [|split].
  - intros config ctx input Hne.
    unfold handoffTool_Call, CreateHandoffTool. cbn [fst agentName].
    destruct (processHandoff_cases s (lit "__HANDOFF__" ++ cfgAgentName config))
      as [[t [Ht E]]|[Hn _]].
    + apply app_inv_head in Ht. subst t. rewrite E.
      unfold routeFunc. cbn [fst ActiveAgent].
      apply gostring_eqb_neq in Hne. rewrite Hne. reflexivity.
    + exfalso. apply Hn. exists (cfgAgentName config). reflexivity.
  - reflexivity.
  - intros r Hn.
    destruct (processHandoff_cases s r) as [[t [Ht _]]|[_ E]].
    + exfalso. apply Hn. exists t. exact Ht.
    + rewrite E. reflexivity.
Qed.

End HandoffRouting.

Lemma skipn_length_app (A : Type) (l m : list A) :
  skipn (List.length l) (l ++ m) = m.
Proof. induction l as [|a l IH]; [reflexivity | exact IH]. Qed.

(** X10. The command built for a decoded handoff and [processHandoff]
    agree: the command goes to the agent that [processHandoff] makes
    active and its update holds exactly the message that [processHandoff]
    appends; the tool call ID has no influence on the command. *)
Theorem CreateHandoffCommand_matches_processHandoff
  (s : SwarmState) (r t toolCallID : gostring) :
  ParseHandoffResult r = (t, true) ->
  let command := CreateHandoffCommand t toolCallID in
  let s' := fst (processHandoff s r) in
  Goto command = ActiveAgent s'
  /\ Update command
     = [ (lit "messages",
          UpdateMessages (skipn (List.length (Messages s)) (Messages s')));
         (lit "active_agent", UpdateString (ActiveAgent s')) ]
  /\ Messages s' = Messages s ++ skipn (List.length (Messages s)) (Messages s')
  /\ forall otherID, CreateHandoffCommand t otherID = command.
Proof.
  intros H command s'.
  destruct (ParseHandoffResult_cases r) as [[u [Hr [P _]]]|[_ [P _]]];
    rewrite P in H; inversion H. subst u r.
  destruct (processHandoff_cases s (lit "__HANDOFF__" ++ t))
    as [[u [Hu E]]|[Hn _]].
  - apply app_inv_head in Hu. subst u. unfold s'. rewrite E.
    cbn [fst Messages ActiveAgent].
    assert (Hs : skipn (List.length (Messages s))
                   (Messages s ++ [transferMessage t])
                 = [transferMessage t]).
    { apply skipn_length_app. }
    rewrite Hs. repeat split.
  - exfalso. apply Hn. exists t. reflexivity.
Qed.

(** ** Reading the calls of a graph *)

Section ReadingCalls.

Variable context_Context : Type.

Local Abbreviation Agent := (Agent context_Context).
Local Abbreviation GraphCall := (GraphCall context_Context).

Lemma nodeNames_app (l1 l2 : list GraphCall) :
  nodeNames (l1 ++ l2) = nodeNames l1 ++ nodeNames l2.
Proof. apply flat_map_app. Qed.

Lemma plainEdges_app (l1 l2 : list GraphCall) :
  plainEdges (l1 ++ l2) = plainEdges l1 ++ plainEdges l2.
Proof. apply flat_map_app. Qed.

Lemma entryPoints_app (l1 l2 : list GraphCall) :
  entryPoints (l1 ++ l2) = entryPoints l1 ++ entryPoints l2.
Proof. apply flat_map_app. Qed.

Lemma edges_only (n : gostring) (dests : list gostring) :
  let cs : list GraphCall := map (fun dest => AddEdge n dest) dests in
  nodeNames cs = [] /\ entryPoints cs = []
  /\ plainEdges cs = map (fun dest => (n, dest)) dests.
Proof.
  induction dests as [|d dests [IH1 [IH2 IH3]]]; simpl.
  - repeat split.
  - unfold nodeNames, entryPoints, plainEdges in *. simpl.
    rewrite IH3. repeat split; assumption.
Qed.

Lemma agentCalls_read (a : Agent) :
  nodeNames (agentCalls a) = [Name a]
  /\ entryPoints (agentCalls a) = []
  /\ plainEdges (agentCalls a)
     = map (fun dest => (Name a, dest)) (Destinations a).
Proof.
  destruct (edges_only (Name a) (Destinations a)) as [H1 [H2 H3]].
  unfold agentCalls, nodeNames, entryPoints, plainEdges in *. simpl.
  rewrite H1. repeat split; assumption.
Qed.

Lemma agentsCalls_read (agents : list Agent) :
  nodeNames (flat_map agentCalls agents) = map (@Name _) agents
  /\ entryPoints (flat_map agentCalls agents) = []
  /\ plainEdges (flat_map agentCalls agents)
     = flat_map (fun a => map (fun dest => (Name a, dest)) (Destinations a))
         agents.
Proof.
  induction agents as [|a agents [IH1 [IH2 IH3]]].
  - repeat split.
  - destruct (agentCalls_read a) as [H1 [H2 H3]].
    cbn [flat_map map].
    rewrite nodeNames_app, entryPoints_app, plainEdges_app.
    rewrite H1, H2, H3, IH1, IH2, IH3. repeat split.
Qed.

Lemma streamingNodeCalls_read (agents : list Agent) :
  let cs := map streamingNodeCall agents in
  nodeNames cs = map (@Name _) agents
  /\ entryPoints cs = [] /\ plainEdges cs = [].
Proof.
  induction agents as [|a agents [IH1 [IH2 IH3]]]; simpl.
  - repeat split.
  - unfold nodeNames, entryPoints, plainEdges in *. simpl.
    rewrite IH1. repeat split; assumption.
Qed.

Lemma streamingEdgeCalls_read (agents : list Agent) :
  let cs := map streamingEdgeCall agents in
  nodeNames cs = [] /\ entryPoints cs = []
  /\ plainEdges cs
     = flat_map (fun a => match Destinations a with
                          | [] => [(Name a, graph_END)]
                          | _ :: _ => []
                          end) agents.
Proof.
  induction agents as [|a agents [IH1 [IH2 IH3]]]; simpl.
  - repeat split.
  - unfold nodeNames, entryPoints, plainEdges, streamingEdgeCall in *.
    simpl. destruct (Destinations a); simpl; rewrite IH3;
      repeat split; assumption.
Qed.

End ReadingCalls.

(** ** The router and its path table *)

Lemma mapLookup_mapAssign (m : list (gostring * gostring))
  (k v k' : gostring) :
  mapLookup (mapAssign m k v) k'
  = if gostring_eqb k k' then Some v else mapLookup m k'.
Proof.
  induction m as [|[k0 v0] m IH]; simpl; [reflexivity|].
  destruct (gostring_eqb k0 k) eqn:E; simpl.
  - apply gostring_eqb_eq in E. subst k0.
    destruct (gostring_eqb k k'); reflexivity.
  - rewrite IH. destruct (gostring_eqb k0 k') eqn:E'; [|reflexivity].
    apply gostring_eqb_eq in E'. subst k0.
    destruct (gostring_eqb k k') eqn:E2; [|reflexivity].
    apply gostring_eqb_eq in E2. subst k'.
    rewrite gostring_eqb_refl in E. discriminate E.
Qed.

Lemma keys_mapAssign (m : list (gostring * gostring)) (k v x : gostring) :
  In x (map fst (mapAssign m k v)) <-> x = k \/ In x (map fst m).
Proof.
  induction m as [|[k0 v0] m IH]; simpl.
  - intuition congruence.
  - destruct (gostring_eqb k0 k) eqn:E; simpl.
    + apply gostring_eqb_eq in E. subst k0. intuition congruence.
    + rewrite IH. intuition congruence.
Qed.

Lemma NoDup_mapAssign (m : list (gostring * gostring)) (k v : gostring) :
  NoDup (map fst m) -> NoDup (map fst (mapAssign m k v)).
Proof.
  induction m as [|[k0 v0] m IH]; simpl; intro H.
  - constructor; [intros [] | constructor].
  - inversion H as [|? ? Hn Hd]; subst.
    destruct (gostring_eqb k0 k) eqn:E; simpl.
    + apply gostring_eqb_eq in E. subst k0. constructor; assumption.
    + constructor; [|apply IH, Hd].
      rewrite keys_mapAssign. intros [Hk|Hk]; [|contradiction].
      subst k0. rewrite gostring_eqb_refl in E. discriminate E.
Qed.

(** The path table of [addActiveAgentRouter]. *)
Lemma pathMap_lookup (agentNames : list gostring)
  (m : list (gostring * gostring)) (k : gostring) :
  mapLookup (fold_left (fun m name => mapAssign m name name) agentNames m) k
  = if found agentNames k then Some k else mapLookup m k.
Proof.
  revert m. induction agentNames as [|n ns IH]; intro m; simpl;
    [reflexivity|].
  rewrite IH, mapLookup_mapAssign. unfold found.
  destruct (existsb _ ns); simpl; [rewrite orb_true_r; reflexivity|].
  rewrite orb_false_r.
  destruct (gostring_eqb n k) eqn:E; [|reflexivity].
  apply gostring_eqb_eq in E. subst n. reflexivity.
Qed.

Lemma pathMap_NoDup (agentNames : list gostring)
  (m : list (gostring * gostring)) :
  NoDup (map fst m) ->
  NoDup (map fst (fold_left (fun m name => mapAssign m name name)
                    agentNames m)).
Proof.
  revert m. induction agentNames as [|n ns IH]; intros m H; simpl;
    [exact H|].
  apply IH, NoDup_mapAssign, H.
Qed.

Lemma found_false_not_In (agentNames : list gostring) (d : gostring) :
  found agentNames d = false <-> ~ In d agentNames.
Proof.
  rewrite <- found_In. destruct (found agentNames d); split; intro H;
    try discriminate; try reflexivity; try (intro; discriminate).
  exfalso. apply H. reflexivity.
Qed.

Section Router.

Variable context_Context : Type.

Local Abbreviation StateGraph := (StateGraph context_Context).

(** X11. [addActiveAgentRouter] (and [AddActiveAgentRouter]) fails
    exactly when the default is not among the agent names, the empty list
    of names included; it then returns the graph untouched and an error
    that names the default and lists the routes. *)
Theorem addActiveAgentRouter_fails_iff
  (g : StateGraph) (agentNames : list gostring) (d : gostring) :
  (snd (addActiveAgentRouter g agentNames d) = None <-> In d agentNames)
  /\ (~ In d agentNames ->
      AddActiveAgentRouter g agentNames d
      = (g, Some (errorString
                    (lit "default active agent '" ++ d
                     ++ lit "' not found in routes "
                     ++ fmt_strings agentNames))))
  /\ snd (addActiveAgentRouter g [] d) <> None.
Proof.
  unfold AddActiveAgentRouter, addActiveAgentRouter. split; [|split].
  - destruct (found agentNames d) eqn:E; simpl.
    + apply found_In in E.
      destruct (hasAddConditionalEdges g); simpl; tauto.
    + apply found_false_not_In in E. split; [discriminate | contradiction].
  - intro H. apply found_false_not_In in H. rewrite H. reflexivity.
  - simpl. discriminate.
Qed.

(** X12. On a graph whose type lacks [AddConditionalEdges] the router is
    not installed and no error is reported: the graph comes back without
    a new call.  A graph built by [CreateSwarm] on such an engine has the
    agents' nodes and edges only, no route from "__start__" and no entry
    point. *)
Theorem router_silently_skipped :
  (forall (g : StateGraph) (agentNames : list gostring) (d : gostring),
      hasAddConditionalEdges g = false -> In d agentNames ->
      addActiveAgentRouter g agentNames d = (g, None))
  /\ (forall (config : SwarmConfig context_Context) (g : StateGraph),
         CreateSwarm false config = (Some g, None) ->
         calls g = flat_map agentCalls (Agents config)
         /\ (forall from route pathMap,
                ~ In (AddConditionalEdges from route pathMap) (calls g))
         /\ entryPoints (calls g) = []).
Proof.
  split.
  - intros g agentNames d Hm Hd. unfold addActiveAgentRouter.
    apply found_In in Hd. rewrite Hd, Hm. reflexivity.
  - intros config g H.
    pose proof (@CreateSwarm_calls context_Context false config g H) as Hc.
    simpl in Hc. split; [exact Hc|]. rewrite Hc. split.
    + intros from route pathMap Hin. apply in_flat_map in Hin
        as [a [_ [Hin|Hin]]]; [discriminate|].
      apply in_map_iff in Hin as [dest [Hin _]]. discriminate.
    + apply agentsCalls_read.
Qed.

(** X13. The path table installed with the router has one entry per
    distinct agent name and maps each name to itself.  Hence what the
    router answers is found in the table exactly when the state's active
    agent is empty or a listed name. *)
Theorem router_pathMap
  (g : StateGraph) (agentNames : list gostring) (d : gostring) :
  hasAddConditionalEdges g = true -> In d agentNames ->
  exists pathMap,
    addActiveAgentRouter g agentNames d
    = (call g (AddConditionalEdges (lit "__start__") (routeFunc d) pathMap),
       None)
    /\ NoDup (map fst pathMap)
    /\ (forall k, In k agentNames -> mapLookup pathMap k = Some k)
    /\ (forall k, ~ In k agentNames -> mapLookup pathMap k = None)
    /\ (forall state,
           mapLookup pathMap (routeFunc d state) = Some (routeFunc d state)
           <-> (ActiveAgent state = [] \/ In (ActiveAgent state) agentNames)).
Proof.
  intros Hm Hd. eexists. unfold addActiveAgentRouter.
  pose proof Hd as Hf. apply found_In in Hf. rewrite Hf, Hm. simpl.
  split; [reflexivity|].
  assert (Hin : forall k, In k agentNames ->
            mapLookup (fold_left (fun m name => mapAssign m name name)
                         agentNames []) k = Some k).
  { intros k Hk. rewrite pathMap_lookup.
    apply found_In in Hk. rewrite Hk. reflexivity. }
  assert (Hout : forall k, ~ In k agentNames ->
            mapLookup (fold_left (fun m name => mapAssign m name name)
                         agentNames []) k = None).
  { intros k Hk. rewrite pathMap_lookup.
    apply found_false_not_In in Hk. rewrite Hk. reflexivity. }
  split; [apply pathMap_NoDup; constructor|].
  split; [exact Hin|]. split; [exact Hout|].
  intro state. unfold routeFunc.
  destruct (gostring_eqb (ActiveAgent state) []) eqn:E; simpl.
  - apply gostring_eqb_eq in E. split; [auto | intros _; apply Hin, Hd].
  - apply gostring_eqb_neq in E. split.
    + intro H. right. destruct (found agentNames (ActiveAgent state)) eqn:F.
      * apply found_In, F.
      * apply found_false_not_In in F. rewrite (Hout _ F) in H.
        discriminate H.
    + intros [H|H]; [contradiction | apply Hin, H].
Qed.

End Router.

(** ** What the builders return *)

Section Builders.

Variable context_Context : Type.
Variable StateGraph_AddConditionalEdges : bool.

Local Abbreviation Agent := (Agent context_Context).
Local Abbreviation SwarmConfig := (SwarmConfig context_Context).
Local Abbreviation StateGraph := (StateGraph context_Context).
Local Abbreviation CreateSwarm' :=
  (@CreateSwarm context_Context StateGraph_AddConditionalEdges).

Lemma builders_cases (config : SwarmConfig) :
  let agentNames := map (@Name _) (Agents config) in
  let d := DefaultActiveAgent config in
  (Agents config = []
   /\ CreateSwarm' config = (None, Some emptyAgentsError)
   /\ CreateStreamingSwarm config = (None, Some emptyAgentsError))
  \/ (Agents config <> [] /\ ~ In d agentNames
      /\ CreateSwarm' config = (None, Some (unknownDefaultError d agentNames))
      /\ CreateStreamingSwarm config
         = (None, Some (unknownDefaultError d agentNames)))
  \/ (Agents config <> [] /\ In d agentNames
      /\ (exists g, CreateSwarm' config = (Some g, None))
      /\ (exists g, CreateStreamingSwarm config = (Some g, None))).
Proof.
  intros agentNames d.
  unfold CreateSwarm, CreateStreamingSwarm, addActiveAgentRouter,
    graph_NewStateGraph.
  destruct (Nat.eqb (List.length (Agents config)) 0) eqn:E.
  - left. apply length_eqb_0 in E. repeat split. exact E.
  - right.
    assert (Hne : Agents config <> []).
    { intro H. apply length_eqb_0 in H. congruence. }
    fold agentNames d. destruct (found agentNames d) eqn:F; simpl.
    + right. apply found_In in F.
      split; [exact Hne|]. split; [exact F|].
      destruct StateGraph_AddConditionalEdges; split; eexists; reflexivity.
    + left. apply found_false_not_In in F. repeat split; assumption.
Qed.

(** X14. The builders fail with one of two errors only, the same in both:
    "agents list cannot be empty" for an empty list, whatever the default
    is, and otherwise the message that names the unknown default and
    lists the agent names; the error of the router never comes out of
    [CreateSwarm]. *)
Theorem builders_errors (config : SwarmConfig) :
  let agentNames := map (@Name _) (Agents config) in
  let d := DefaultActiveAgent config in
  (Agents config = [] ->
     CreateSwarm' config = (None, Some emptyAgentsError)
     /\ CreateStreamingSwarm config = (None, Some emptyAgentsError))
  /\ (Agents config <> [] -> ~ In d agentNames ->
        CreateSwarm' config
        = (None, Some (unknownDefaultError d agentNames))
        /\ CreateStreamingSwarm config
           = (None, Some (unknownDefaultError d agentNames)))
  /\ snd (CreateSwarm' config) = snd (CreateStreamingSwarm config)
  /\ (forall e, snd (CreateSwarm' config) = Some e ->
                e = emptyAgentsError
                \/ e = unknownDefaultError d agentNames).
Proof.
  intros agentNames d.
  destruct (builders_cases config)
    as [[H0 [E1 E2]]|[[Hne [Hd [E1 E2]]]|[Hne [Hd [[g1 E1] [g2 E2]]]]]];
    fold agentNames d in Hd || idtac; rewrite E1, E2;
    (split; [|split; [|split]]); try reflexivity; try tauto;
    simpl; intros e He; inversion He; auto.
Qed.

(** X15. Both builders succeed on the same configurations, those in which
    some agent bears the default name, and each returns either a graph or
    an error, never both and never neither. *)
Theorem builders_succeed_iff (config : SwarmConfig) :
  let agentNames := map (@Name _) (Agents config) in
  let d := DefaultActiveAgent config in
  ((exists g, CreateSwarm' config = (Some g, None)) <-> In d agentNames)
  /\ ((exists g, CreateStreamingSwarm config = (Some g, None))
      <-> In d agentNames)
  /\ (fst (CreateSwarm' config) = None <-> snd (CreateSwarm' config) <> None)
  /\ (fst (CreateStreamingSwarm config) = None
      <-> snd (CreateStreamingSwarm config) <> None).
Proof.
  intros agentNames d.
  destruct (builders_cases config)
    as [[H0 [E1 E2]]|[[Hne [Hd [E1 E2]]]|[Hne [Hd [[g1 E1] [g2 E2]]]]]];
    fold agentNames d in Hd || idtac; rewrite E1, E2; simpl.
  - assert (Hn : ~ In d agentNames).
    { unfold agentNames. rewrite H0. intros []. }
    repeat split; try discriminate; try tauto;
      intros [g Hg]; discriminate Hg.
  - repeat split; try discriminate; try tauto;
      intros [g Hg]; discriminate Hg.
  - repeat split; try discriminate; try tauto; try congruence;
      intros _; eexists; reflexivity.
Qed.

(** X16. A graph built by [CreateSwarm] has one node per entry of the
    agent list, in the order and under the names given there (repeated
    names included), one plain edge for every declared destination,
    whether it names an agent or not, no conditional edge and no entry
    point; when the engine's graph has [AddConditionalEdges], its first
    call installs the router for the configured default. *)
Theorem CreateSwarm_graph (config : SwarmConfig) (g : StateGraph) :
  CreateSwarm' config = (Some g, None) ->
  nodeNames (calls g) = map (@Name _) (Agents config)
  /\ plainEdges (calls g)
     = flat_map (fun a => map (fun dest => (Name a, dest)) (Destinations a))
         (Agents config)
  /\ entryPoints (calls g) = []
  /\ (forall from condition,
         ~ In (AddConditionalEdge from condition) (calls g))
  /\ (StateGraph_AddConditionalEdges = true ->
      exists pathMap,
        hd_error (calls g)
        = Some (AddConditionalEdges (lit "__start__")
                  (routeFunc (DefaultActiveAgent config)) pathMap)).
Proof.
  intro H.
  rewrite (@CreateSwarm_calls context_Context StateGraph_AddConditionalEdges
             config g H).
  destruct (agentsCalls_read (Agents config)) as [H1 [H2 H3]].
  rewrite nodeNames_app, plainEdges_app, entryPoints_app, H1, H2, H3.
  assert (Hc : forall from condition,
             ~ In (AddConditionalEdge from condition)
                 (flat_map agentCalls (Agents config))).
  { intros from condition Hin.
    apply in_flat_map in Hin as [a [_ [Hin|Hin]]]; [discriminate|].
    apply in_map_iff in Hin as [dest [Hin _]]. discriminate. }
  destruct StateGraph_AddConditionalEdges; simpl.
  - repeat split; try reflexivity.
    + intros from condition [Hin|Hin]; [discriminate | exact (Hc _ _ Hin)].
    + intros _. eexists. reflexivity.
  - repeat split; try reflexivity; [exact Hc | discriminate].
Qed.

(** X17. A graph built by [CreateStreamingSwarm] has its entry point set
    first and once, to the configured default, which is the name of a
    node of the graph; it has one node per entry of the agent list, in
    order, one outgoing edge or conditional edge per entry, and plain
    edges, all to END, for the agents without destinations only. *)
Theorem CreateStreamingSwarm_graph (config : SwarmConfig)
  (g : StreamingStateGraph context_Context) :
  CreateStreamingSwarm config = (Some g, None) ->
  hd_error (streamingCalls g)
  = Some (SetEntryPoint (DefaultActiveAgent config))
  /\ entryPoints (streamingCalls g) = [DefaultActiveAgent config]
  /\ nodeNames (streamingCalls g) = map (@Name _) (Agents config)
  /\ In (DefaultActiveAgent config) (nodeNames (streamingCalls g))
  /\ List.length (streamingCalls g)
     = (1 + 2 * List.length (Agents config))%nat
  /\ plainEdges (streamingCalls g)
     = flat_map (fun a => match Destinations a with
                          | [] => [(Name a, graph_END)]
                          | _ :: _ => []
                          end) (Agents config).
Proof.
  intro H.
  assert (Hd : In (DefaultActiveAgent config) (map (@Name _) (Agents config))).
  { pose proof H as H'. unfold CreateStreamingSwarm in H'.
    destruct (Nat.eqb (List.length (Agents config)) 0); [discriminate H'|].
    destruct (found (map (@Name _) (Agents config))
                (DefaultActiveAgent config)) eqn:F;
      [apply found_In, F | discriminate H']. }
  rewrite (CreateStreamingSwarm_calls _ H).
  destruct (streamingNodeCalls_read (Agents config)) as [N1 [N2 N3]].
  destruct (streamingEdgeCalls_read (Agents config)) as [E1 [E2 E3]].
  change (SetEntryPoint (DefaultActiveAgent config)
          :: map streamingNodeCall (Agents config)
             ++ map streamingEdgeCall (Agents config))
    with ([SetEntryPoint (DefaultActiveAgent config)]
          ++ map streamingNodeCall (Agents config)
             ++ map streamingEdgeCall (Agents config)).
  rewrite !nodeNames_app, !entryPoints_app, !plainEdges_app.
  rewrite N1, N2, N3, E1, E2, E3. simpl.
  rewrite !app_nil_r, length_app, !length_map.
  repeat split; try reflexivity; try assumption. lia.
Qed.

(** X18. The conditional transition of an agent answers END or one of the
    agent's destinations, and a destination only if it is the state's
    active agent and not the agent's own name; it reads nothing of the
    state but the active agent, and an agent whose active agent is still
    its own name, or empty, ends the turn. *)
Theorem conditionFunc_whitelist (a : Agent) (ctx : context_Context)
  (state : SwarmState) :
  (conditionFunc a ctx state = graph_END
   \/ (In (conditionFunc a ctx state) (Destinations a)
       /\ conditionFunc a ctx state = ActiveAgent state
       /\ conditionFunc a ctx state <> Name a))
  /\ (forall ctx' messages,
         conditionFunc a ctx' (mkSwarmState messages (ActiveAgent state))
         = conditionFunc a ctx state)
  /\ (ActiveAgent state = [] \/ ActiveAgent state = Name a ->
      conditionFunc a ctx state = graph_END).
Proof.
  destruct (conditionFunc_routes a ctx state) as [H1 H2].
  split; [|split].
  - unfold conditionFunc in *.
    destruct (negb (gostring_eqb (ActiveAgent state) [])
              && negb (gostring_eqb (ActiveAgent state) (Name a))) eqn:E;
      [|left; reflexivity].
    destruct (existsb _ (Destinations a)) eqn:E3; [|left; reflexivity].
    right. apply andb_true_iff in E as [_ E].
    apply negb_true_iff, gostring_eqb_neq in E.
    apply existsb_exists in E3 as [dest [Hin Heq]].
    apply gostring_eqb_eq in Heq. subst dest. auto.
  - intros ctx' messages. reflexivity.
  - intro H. apply H2. intros [Hn [Hs _]]. destruct H; contradiction.
Qed.

End Builders.

(** ** The node functions *)

Section Nodes.

Variable context_Context : Type.

Local Abbreviation Agent := (Agent context_Context).

(** X19. The node of the streaming builder returns what the node of
    [CreateSwarm] returns on the same agent, context and state; only the
    former prints: first the line naming the agent, and the line
    reporting an [Invoke] error exactly when it returns that error. *)
Theorem streamingNodeFunc_agrees (a : Agent) (ctx : context_Context)
  (state : SwarmState) :
  result (streamingNodeFunc a ctx state) = result (nodeFunc a ctx state)
  /\ output (nodeFunc a ctx state) = []
  /\ hd_error (output (streamingNodeFunc a ctx state))
     = Some (PrintNodeExecuting (Name a))
  /\ (forall e,
         In (PrintInvokeError e) (output (streamingNodeFunc a ctx state))
         <-> snd (result (streamingNodeFunc a ctx state)) = Some e).
Proof.
  unfold streamingNodeFunc, nodeFunc, result, output.
  destruct (Runnable a) as [|dynType Invoke|t]; simpl.
  - repeat split; try reflexivity; try discriminate.
    intros [H|[H|[]]]; discriminate H.
  - destruct (Invoke ctx state) as [v [e|]]; simpl.
    + repeat split; try reflexivity.
      * intros [H|[H|[H|[]]]]; try discriminate H. inversion H. reflexivity.
      * intro H. inversion H. right. right. left. reflexivity.
    + destruct v; simpl; repeat split; try reflexivity; try discriminate;
        intros [H|[H|[H|[]]]]; discriminate H.
  - repeat split; try reflexivity; try discriminate.
    intros [H|[H|[]]]; discriminate H.
Qed.

(** X20. A node hands back a state other than the one it received only
    when the runnable's [Invoke] returned that state without error, and
    then hands it back whole; it returns an error only when [Invoke]
    returned that error, and then with the state it received. *)
Theorem nodeFunc_result_origin (a : Agent) (ctx : context_Context)
  (state : SwarmState) :
  let r := result (nodeFunc a ctx state) in
  (fst r <> state ->
     exists dynType Invoke,
       Runnable a = RunnableInvoker dynType Invoke
       /\ Invoke ctx state = (SwarmStateValue (fst r), None))
  /\ (forall e, snd r = Some e ->
        fst r = state
        /\ exists dynType Invoke v,
             Runnable a = RunnableInvoker dynType Invoke
             /\ Invoke ctx state = (v, Some e))
  /\ (forall dynType Invoke resultState,
         Runnable a = RunnableInvoker dynType Invoke ->
         Invoke ctx state = (SwarmStateValue resultState, None) ->
         r = (resultState, None)).
Proof.
  unfold nodeFunc, result.
  destruct (Runnable a) as [|dynType Invoke|t] eqn:Er; simpl.
  - repeat split; try discriminate. intro H. exfalso. apply H. reflexivity.
  - destruct (Invoke ctx state) as [v [e|]] eqn:Ei; simpl.
    + split; [intro H; exfalso; apply H; reflexivity|]. split.
      * intros e' He. inversion He. subst e'. split; [reflexivity|].
        exists dynType, Invoke, v. split; [reflexivity | exact Ei].
      * intros d I rs Hr Hi. inversion Hr. subst I. rewrite Ei in Hi.
        discriminate Hi.
    + destruct v as [|s|t]; simpl.
      * split; [intro H; exfalso; apply H; reflexivity|].
        split; [discriminate|].
        intros d I rs Hr Hi. inversion Hr. subst I. rewrite Ei in Hi.
        discriminate Hi.
      * split.
        { intros _. exists dynType, Invoke. split; [reflexivity | exact Ei]. }
        split; [discriminate|].
        intros d I rs Hr Hi. inversion Hr. subst I. rewrite Ei in Hi.
        inversion Hi. reflexivity.
      * split; [intro H; exfalso; apply H; reflexivity|].
        split; [discriminate|].
        intros d I rs Hr Hi. inversion Hr. subst I. rewrite Ei in Hi.
        discriminate Hi.
  - repeat split; try discriminate. intro H. exfalso. apply H. reflexivity.
Qed.

(** X21. The node of the builder that tries a typed [Invoke] first
    (src/unnamed/part_000) is the node of [CreateSwarm] for every
    runnable without the typed method; for a runnable with it, the node
    passes on what [Invoke] returned, so that an error comes with the
    state [Invoke] returned rather than with the state the node
    received. *)
Theorem typedNodeFunc_paths :
  (forall (a : Agent) (ctx : context_Context) (state : SwarmState),
      typedNodeFunc (RunnableUntyped (Runnable a)) ctx state
      = nodeFunc a ctx state)
  /\ (forall dynType Invoke (ctx : context_Context) state state' err,
         Invoke ctx state = (state', err) ->
         result (typedNodeFunc (RunnableTypedInvoker dynType Invoke)
                   ctx state)
         = (state', err)).
Proof.
  split.
  - intros a ctx state. unfold typedNodeFunc, nodeFunc.
    destruct (Runnable a); reflexivity.
  - intros dynType Invoke ctx state state' err H.
    unfold typedNodeFunc, result, ret. simpl. exact H.
Qed.

End Nodes.

(** ** The bookings of the customer support example *)

Lemma reservationOf_setReservation (m : Reservations) (u u' : gostring)
  (r : Reservation) :
  reservationOf (setReservation m u r) u'
  = if gostring_eqb u u' then Some r else reservationOf m u'.
Proof.
  induction m as [|[k r0] m IH]; simpl; [reflexivity|].
  destruct (gostring_eqb k u) eqn:E; simpl.
  - apply gostring_eqb_eq in E. subst k.
    destruct (gostring_eqb u u'); reflexivity.
  - rewrite IH. destruct (gostring_eqb k u') eqn:E'; [|reflexivity].
    apply gostring_eqb_eq in E'. subst k.
    destruct (gostring_eqb u u') eqn:E2; [|reflexivity].
    apply gostring_eqb_eq in E2. subst u'.
    rewrite gostring_eqb_refl in E. discriminate E.
Qed.

Lemma bookFlight_reads (flights : list Flight) (m : Reservations)
  (flightID u u' : gostring) :
  let booked := bookFlight flights m flightID u in
  match flightWithID flights flightID with
  | None => booked = (lit "Flight not found", m)
  | Some f =>
      fst booked = lit "Successfully booked flight"
      /\ reservationOf (snd booked) u'
         = if gostring_eqb u u'
           then Some {| FlightInfo := f;
                        HotelInfo := HotelInfo (reservedBy m u) |}
           else reservationOf m u'
  end.
Proof.
  unfold flightWithID, reservedBy.
  induction flights as [|f flights IH]; simpl; [reflexivity|].
  destruct (gostring_eqb (Flight_ID f) flightID); [|exact IH].
  split; [reflexivity|]. simpl.
  destruct (reservationOf m u) as [r|] eqn:E.
  - rewrite E, reservationOf_setReservation. reflexivity.
  - rewrite reservationOf_setReservation, gostring_eqb_refl.
    rewrite !reservationOf_setReservation.
    destruct (gostring_eqb u u'); reflexivity.
Qed.

Lemma bookHotel_reads (hotels : list Hotel) (m : Reservations)
  (hotelID u u' : gostring) :
  let booked := bookHotel hotels m hotelID u in
  match hotelWithID hotels hotelID with
  | None => booked = (lit "Hotel not found", m)
  | Some h =>
      fst booked = lit "Successfully booked hotel"
      /\ reservationOf (snd booked) u'
         = if gostring_eqb u u'
           then Some {| FlightInfo := FlightInfo (reservedBy m u);
                        HotelInfo := h |}
           else reservationOf m u'
  end.
Proof.
  unfold hotelWithID, reservedBy.
  induction hotels as [|h hotels IH]; simpl; [reflexivity|].
  destruct (gostring_eqb (Hotel_ID h) hotelID); [|exact IH].
  split; [reflexivity|]. simpl.
  destruct (reservationOf m u) as [r|] eqn:E.
  - rewrite E, reservationOf_setReservation. reflexivity.
  - rewrite reservationOf_setReservation, gostring_eqb_refl.
    rewrite !reservationOf_setReservation.
    destruct (gostring_eqb u u'); reflexivity.
Qed.

(** X22. Booking a flight whose ID is not on offer answers "Flight not
    found" and leaves every reservation as it was.  Booking one on offer
    stores the first flight with that ID for the user, keeps the hotel
    the user had reserved and touches no other user's reservation. *)
Theorem bookFlight_effect (flights : list Flight) (m : Reservations)
  (flightID u : gostring) :
  (flightWithID flights flightID = None ->
     bookFlight flights m flightID u = (lit "Flight not found", m))
  /\ (forall f, flightWithID flights flightID = Some f ->
        let booked := bookFlight flights m flightID u in
        fst booked = lit "Successfully booked flight"
        /\ reservationOf (snd booked) u
           = Some {| FlightInfo := f;
                     HotelInfo := HotelInfo (reservedBy m u) |}
        /\ forall u', u' <> u ->
             reservationOf (snd booked) u' = reservationOf m u').
Proof.
  split.
  - intro H. pose proof (bookFlight_reads flights m flightID u u) as R.
    rewrite H in R. exact R.
  - intros f H booked. subst booked. split; [|split].
    + pose proof (bookFlight_reads flights m flightID u u) as R.
      rewrite H in R. apply R.
    + pose proof (bookFlight_reads flights m flightID u u) as R.
      rewrite H, gostring_eqb_refl in R. apply R.
    + intros u' Hu.
      pose proof (bookFlight_reads flights m flightID u u') as R.
      rewrite H in R. destruct R as [_ R]. rewrite R.
      destruct (gostring_eqb u u') eqn:E; [|reflexivity].
      apply gostring_eqb_eq in E. congruence.
Qed.

(** X23. Booking a hotel whose ID is not on offer answers "Hotel not
    found" and leaves every reservation as it was.  Booking one on offer
    stores the first hotel with that ID for the user, keeps the flight
    the user had reserved and touches no other user's reservation. *)
Theorem bookHotel_effect (hotels : list Hotel) (m : Reservations)
  (hotelID u : gostring) :
  (hotelWithID hotels hotelID = None ->
     bookHotel hotels m hotelID u = (lit "Hotel not found", m))
  /\ (forall h, hotelWithID hotels hotelID = Some h ->
        let booked := bookHotel hotels m hotelID u in
        fst booked = lit "Successfully booked hotel"
        /\ reservationOf (snd booked) u
           = Some {| FlightInfo := FlightInfo (reservedBy m u);
                     HotelInfo := h |}
        /\ forall u', u' <> u ->
             reservationOf (snd booked) u' = reservationOf m u').
Proof.
  split.
  - intro H. pose proof (bookHotel_reads hotels m hotelID u u) as R.
    rewrite H in R. exact R.
  - intros h H booked. subst booked. split; [|split].
    + pose proof (bookHotel_reads hotels m hotelID u u) as R.
      rewrite H in R. apply R.
    + pose proof (bookHotel_reads hotels m hotelID u u) as R.
      rewrite H, gostring_eqb_refl in R. apply R.
    + intros u' Hu.
      pose proof (bookHotel_reads hotels m hotelID u u') as R.
      rewrite H in R. destruct R as [_ R]. rewrite R.
      destruct (gostring_eqb u u') eqn:E; [|reflexivity].
      apply gostring_eqb_eq in E. congruence.
Qed.

(** X24. A flight booking and a hotel booking, for the same user or for
    two users, give the same messages and leave every user with the same
    reservation in whichever order they are made. *)
Theorem bookings_commute (flights : list Flight) (hotels : list Hotel)
  (m : Reservations) (flightID hotelID u1 u2 : gostring) :
  let flightFirst := bookFlight flights m flightID u1 in
  let thenHotel := bookHotel hotels (snd flightFirst) hotelID u2 in
  let hotelFirst := bookHotel hotels m hotelID u2 in
  let thenFlight := bookFlight flights (snd hotelFirst) flightID u1 in
  fst flightFirst = fst thenFlight
  /\ fst thenHotel = fst hotelFirst
  /\ forall u, reservationOf (snd thenHotel) u
               = reservationOf (snd thenFlight) u.
Proof.
  intros flightFirst thenHotel hotelFirst thenFlight.
  assert (HF : forall m' u',
    match flightWithID flights flightID with
    | None => bookFlight flights m' flightID u1 = (lit "Flight not found", m')
    | Some f =>
        fst (bookFlight flights m' flightID u1)
        = lit "Successfully booked flight"
        /\ reservationOf (snd (bookFlight flights m' flightID u1)) u'
           = if gostring_eqb u1 u'
             then Some {| FlightInfo := f;
                          HotelInfo := HotelInfo (reservedBy m' u1) |}
             else reservationOf m' u'
    end) by (intros; apply bookFlight_reads).
  assert (HH : forall m' u',
    match hotelWithID hotels hotelID with
    | None => bookHotel hotels m' hotelID u2 = (lit "Hotel not found", m')
    | Some h =>
        fst (bookHotel hotels m' hotelID u2)
        = lit "Successfully booked hotel"
        /\ reservationOf (snd (bookHotel hotels m' hotelID u2)) u'
           = if gostring_eqb u2 u'
             then Some {| FlightInfo := FlightInfo (reservedBy m' u2);
                          HotelInfo := h |}
             else reservationOf m' u'
    end) by (intros; apply bookHotel_reads).
  unfold thenHotel, thenFlight, flightFirst, hotelFirst.
  destruct (flightWithID flights flightID) as [f|];
    destruct (hotelWithID hotels hotelID) as [h|].
  - split; [|split].
    + rewrite (proj1 (HF m u1)), (proj1 (HF _ u1)). reflexivity.
    + rewrite (proj1 (HH m u1)), (proj1 (HH _ u1)). reflexivity.
    + intro u.
      rewrite (proj2 (HH (snd (bookFlight flights m flightID u1)) u)),
        (proj2 (HF (snd (bookHotel hotels m hotelID u2)) u)).
      unfold reservedBy.
      rewrite (proj2 (HF m u2)), (proj2 (HH m u1)), (proj2 (HF m u)),
        (proj2 (HH m u)).
      destruct (gostring_eqb u2 u) eqn:E2; destruct (gostring_eqb u1 u) eqn:E1;
        try reflexivity.
      * apply gostring_eqb_eq in E1, E2. subst u1 u2.
        rewrite gostring_eqb_refl. reflexivity.
      * apply gostring_eqb_eq in E2. subst u2. rewrite E1. reflexivity.
      * apply gostring_eqb_eq in E1. subst u1. rewrite E2. reflexivity.
  - repeat (rewrite ?(HH _ u1); simpl). repeat split.
  - repeat (rewrite ?(HF _ u1); simpl). repeat split.
  - repeat (rewrite ?(HF _ u1), ?(HH _ u1); simpl). repeat split.
Qed.

(** ** Tool names and markers *)

Section ToolNames.

Variable context_Context : Type.
Variable caseLower : N -> N.

(** X25. Two targets get the same default tool name exactly when they
    have the same normal form, so names that differ in case or spacing
    share a tool name; the markers their tools return are equal only for
    equal targets. *)
Theorem default_tool_names (x y desc desc' : gostring) :
  let toolFor t d :=
    CreateHandoffTool caseLower (mkHandoffToolConfig t [] d) in
  (handoffTool_Name (toolFor x desc) = handoffTool_Name (toolFor y desc')
   <-> normalizeAgentName caseLower x = normalizeAgentName caseLower y)
  /\ (forall (ctx ctx' : context_Context) (input input' : gostring),
         fst (handoffTool_Call (toolFor x desc) ctx input)
         = fst (handoffTool_Call (toolFor y desc') ctx' input')
         <-> x = y).
Proof.
  intro toolFor. unfold toolFor, CreateHandoffTool, handoffTool_Name,
    handoffTool_Call.
  cbn [name agentName cfgName cfgAgentName fst gostring_eqb]. split.
  - split; intro H; [apply app_inv_head in H; exact H | rewrite H; reflexivity].
  - intros ctx ctx' input input'.
    split; intro H; [apply app_inv_head in H; exact H | rewrite H; reflexivity].
Qed.

End ToolNames.

(** ** The further properties at sample values *)

Lemma normalizeAgentName_canonical_witness :
  let y := normalizeAgentName latin1Lower
             [Rune 0x20; Rune 0xC9; Rune 0x20; Rune 0x0A; BadByte 0xFF;
              Rune 0x0B; Rune 0x41; Rune 0xA0] in
  trimmed y = true
  /\ noWhitespace y
  /\ Forall (fun c => isRune c = true /\ isAsciiUpper c = false) y
  /\ noWhitespace
       (handoffTool_Name
          (CreateHandoffTool latin1Lower
             (mkHandoffToolConfig
                [Rune 0x20; Rune 0xC9; Rune 0x20; Rune 0x0A; BadByte 0xFF;
                 Rune 0x0B; Rune 0x41; Rune 0xA0] [] []))).
Proof.
  exact (@normalizeAgentName_canonical latin1Lower latin1Lower_idem
           latin1Lower_space latin1Lower_RuneError
           [Rune 0x20; Rune 0xC9; Rune 0x20; Rune 0x0A; BadByte 0xFF;
            Rune 0x0B; Rune 0x41; Rune 0xA0] []).
Defined.

Lemma normalizeAgentName_fixed_points_witness :
  (normalizeAgentName latin1Lower (lit "agent_one") = lit "agent_one"
   <-> (trimmed (lit "agent_one") = true /\ noWhitespace (lit "agent_one")
        /\ ToLower latin1Lower (lit "agent_one") = lit "agent_one"))
  /\ normalizeAgentName latin1Lower (lit "Agent One") <> lit "Agent One".
Proof.
  split.
  - exact (@normalizeAgentName_fixed_points latin1Lower latin1Lower_idem
             latin1Lower_space latin1Lower_RuneError (lit "agent_one")).
  - cbv. discriminate.
Defined.

Lemma normalizeAgentName_blank_witness :
  handoffTool_Name
    (CreateHandoffTool latin1Lower
       (mkHandoffToolConfig [Rune 0x20; Rune 0xA0; Rune 0x09] []
          (lit "blank")))
  = lit "transfer_to_".
Proof.
  apply (proj2 (normalizeAgentName_blank latin1Lower
                  [Rune 0x20; Rune 0xA0; Rune 0x09] (lit "blank"))).
  repeat constructor.
Defined.

Lemma normalizeAgentName_surrounding_space_witness :
  normalizeAgentName latin1Lower
    ([Rune 0x20; Rune 0x3000] ++ lit "Agent One" ++ [Rune 0x0B; Rune 0x0A])
  = normalizeAgentName latin1Lower (lit "Agent One").
Proof.
  apply normalizeAgentName_surrounding_space; repeat constructor.
Defined.

Lemma normalizeAgentName_run_length_witness :
  normalizeAgentName latin1Lower
    (lit "Agent" ++ [Rune 0x20] ++ lit "One")
  = normalizeAgentName latin1Lower
      (lit "Agent" ++ [Rune 0x09; Rune 0x0A; Rune 0x20] ++ lit "One").
Proof.
  apply normalizeAgentName_run_length;
    (split; [discriminate | repeat constructor]).
Defined.

Lemma ParseHandoffResult_inverse_witness :
  lit "__HANDOFF__Bob" = lit "__HANDOFF__" ++ lit "Bob"
  /\ ~ startsWithHandoffPrefix (lit "Booked").
Proof.
  split.
  - apply (proj1 (ParseHandoffResult_inverse (lit "__HANDOFF__Bob")
                    (lit "Bob"))). reflexivity.
  - apply (proj1 (proj2 (ParseHandoffResult_inverse (lit "Booked") []))).
    reflexivity.
Defined.

Lemma handoff_then_route_witness :
  routeFunc (lit "Alice")
    (fst (processHandoff helloState
            (fst (handoffTool_Call
                    (CreateHandoffTool latin1Lower
                       (mkHandoffToolConfig (lit "Bob") [] []))
                    tt (lit "over to you")))))
  = lit "Bob"
  /\ routeFunc (lit "Alice")
       (fst (processHandoff helloState (lit "Booked"))) 
     = routeFunc (lit "Alice") helloState.
Proof.
  destruct (handoff_then_route unit latin1Lower helloState (lit "Alice"))
    as [Htool [_ Hother]].
  split.
  - apply (Htool (mkHandoffToolConfig (lit "Bob") [] []) tt
             (lit "over to you")).
    cbv. discriminate.
  - apply Hother. not_marker.
Defined.

Lemma CreateHandoffCommand_matches_processHandoff_witness :
  let command := CreateHandoffCommand (lit "Bob") (lit "call_1") in
  let s' := fst (processHandoff helloState (lit "__HANDOFF__Bob")) in
  Goto command = ActiveAgent s'
  /\ Update command
     = [ (lit "messages",
          UpdateMessages
            (skipn (List.length (Messages helloState)) (Messages s')));
         (lit "active_agent", UpdateString (ActiveAgent s')) ]
  /\ Messages s'
     = Messages helloState
       ++ skipn (List.length (Messages helloState)) (Messages s')
  /\ forall otherID, CreateHandoffCommand (lit "Bob") otherID = command.
Proof.
  apply (@CreateHandoffCommand_matches_processHandoff helloState
           (lit "__HANDOFF__Bob") (lit "Bob") (lit "call_1")).
  reflexivity.
Defined.

Lemma addActiveAgentRouter_fails_iff_witness :
  AddActiveAgentRouter (graph_NewStateGraph (context_Context := unit) true)
    [lit "Alice"; lit "Bob"] (lit "Charlie")
  = (graph_NewStateGraph true,
     Some (errorString
             (lit "default active agent 'Charlie' not found in routes [Alice Bob]"))).
Proof.
  apply (proj1 (proj2 (addActiveAgentRouter_fails_iff
                         (graph_NewStateGraph (context_Context := unit) true)
                         [lit "Alice"; lit "Bob"] (lit "Charlie")))).
  cbv. intros [H|[H|[]]]; discriminate H.
Defined.

Lemma router_silently_skipped_witness :
  addActiveAgentRouter (graph_NewStateGraph (context_Context := unit) false)
    [lit "Alice"; lit "Bob"] (lit "Alice")
  = (graph_NewStateGraph false, None)
  /\ (forall g, CreateSwarm false aliceBob = (Some g, None) ->
                entryPoints (calls g) = []).
Proof.
  destruct (router_silently_skipped unit) as [Hskip Hbuilt].
  split.
  - apply Hskip; [reflexivity | left; reflexivity].
  - intros g H. apply (Hbuilt aliceBob g H).
Defined.

Lemma router_pathMap_witness :
  exists pathMap,
    addActiveAgentRouter (graph_NewStateGraph (context_Context := unit) true)
      [lit "Alice"; lit "Bob"; lit "Alice"] (lit "Bob")
    = (call (graph_NewStateGraph true)
         (AddConditionalEdges (lit "__start__") (routeFunc (lit "Bob"))
            pathMap), None)
    /\ mapLookup pathMap (lit "Alice") = Some (lit "Alice")
    /\ mapLookup pathMap (lit "Mallory") = None
    /\ List.length pathMap = 2%nat.
Proof.
  destruct (@router_pathMap unit (graph_NewStateGraph true)
              [lit "Alice"; lit "Bob"; lit "Alice"] (lit "Bob"))
    as [pathMap [E [_ [Hin [Hout _]]]]].
  - reflexivity.
  - right. left. reflexivity.
  - exists pathMap. split; [exact E|]. split; [|split].
    + apply Hin. left. reflexivity.
    + apply Hout. cbv. intros [H|[H|[H|[]]]]; discriminate H.
    + cbv in E. inversion E. reflexivity.
Defined.

Lemma builders_errors_witness :
  CreateSwarm true noAgents = (None, Some emptyAgentsError)
  /\ CreateStreamingSwarm aliceOnlyDefaultBob
     = (None,
        Some (errorString
                (lit "default active agent 'Bob' not found in agent names [Alice]"))).
Proof.
  split.
  - apply (proj1 (builders_errors true noAgents)). reflexivity.
  - apply (proj1 (proj2 (builders_errors true aliceOnlyDefaultBob))).
    + discriminate.
    + cbv. intros [H|[]]. discriminate H.
Defined.

Lemma CreateSwarm_graph_witness :
  exists g,
    CreateSwarm true fullSwarm = (Some g, None)
    /\ nodeNames (calls g)
       = [lit "Alice"; lit "Bob"; lit "Carol"; lit "Dave"; lit "Erin"]
    /\ plainEdges (calls g)
       = [(lit "Alice", lit "Bob"); (lit "Bob", lit "Alice")]
    /\ entryPoints (calls g) = [].
Proof.
  destruct (CreateSwarm true fullSwarm) as [[g|] [e|]] eqn:E;
    try (cbv in E; discriminate E).
  exists g. split; [reflexivity|].
  destruct (@CreateSwarm_graph unit true fullSwarm g E) as [H1 [H2 [H3 _]]].
  rewrite H1, H2, H3. repeat split.
Defined.

Lemma CreateStreamingSwarm_graph_witness :
  exists g,
    CreateStreamingSwarm fullSwarm = (Some g, None)
    /\ entryPoints (streamingCalls g) = [lit "Alice"]
    /\ List.length (streamingCalls g) = 11%nat
    /\ plainEdges (streamingCalls g)
       = [(lit "Carol", graph_END); (lit "Dave", graph_END);
          (lit "Erin", graph_END)].
Proof.
  destruct (CreateStreamingSwarm fullSwarm) as [[g|] [e|]] eqn:E;
    try (cbv in E; discriminate E).
  exists g. split; [reflexivity|].
  destruct (@CreateStreamingSwarm_graph unit fullSwarm g E)
    as [_ [H2 [_ [_ [H5 H6]]]]].
  rewrite H2, H5, H6. repeat split.
Defined.

Lemma conditionFunc_whitelist_witness :
  conditionFunc alice tt (mkSwarmState [] (lit "Alice")) = graph_END
  /\ conditionFunc alice tt helloState = graph_END.
Proof.
  split.
  - apply (proj2 (proj2 (conditionFunc_whitelist alice tt
                           (mkSwarmState [] (lit "Alice"))))).
    right. reflexivity.
  - apply (proj2 (proj2 (conditionFunc_whitelist alice tt helloState))).
    left. reflexivity.
Defined.

Lemma nodeFunc_result_origin_witness :
  result (nodeFunc alice tt helloState)
  = ({| Messages := Messages helloState
                    ++ [llms_TextParts (lit "ai") [lit "Hello from Alice"]];
        ActiveAgent := [] |}, None)
  /\ fst (result (nodeFunc carol tt helloState)) = helloState.
Proof.
  split.
  - apply (proj2 (proj2 (nodeFunc_result_origin alice tt helloState))
             (lit "*graph.StateRunnable[swarm.SwarmState]")
             (fun _ state =>
                (SwarmStateValue
                   {| Messages := Messages state
                                  ++ [llms_TextParts (lit "ai")
                                        [lit "Hello from Alice"]];
                      ActiveAgent := ActiveAgent state |}, None)));
      reflexivity.
  - apply (proj1 (proj2 (nodeFunc_result_origin carol tt helloState))
             (errorString (lit "model unavailable"))).
    reflexivity.
Defined.

Lemma typedNodeFunc_paths_witness :
  result (typedNodeFunc typedFailingRunnable tt helloState)
  = ({| Messages := Messages helloState
                    ++ [llms_TextParts (lit "ai") [lit "partial answer"]];
        ActiveAgent := [] |},
     Some (errorString (lit "model unavailable")))
  /\ fst (result (typedNodeFunc typedFailingRunnable tt helloState))
     <> helloState.
Proof.
  split.
  - apply (proj2 (typedNodeFunc_paths unit) (lit "*typed")
             (fun _ state =>
                ({| Messages := Messages state
                                ++ [llms_TextParts (lit "ai")
                                      [lit "partial answer"]];
                    ActiveAgent := ActiveAgent state |},
                 Some (errorString (lit "model unavailable"))))
             tt helloState).
    reflexivity.
  - cbv. discriminate.
Defined.

Lemma bookFlight_effect_witness :
  bookFlight sampleFlights [] (lit "7") (lit "user1")
  = (lit "Flight not found", [])
  /\ fst (bookFlight sampleFlights [] (lit "1") (lit "user1"))
     = lit "Successfully booked flight".
Proof.
  split.
  - apply (proj1 (bookFlight_effect sampleFlights [] (lit "7") (lit "user1"))).
    reflexivity.
  - apply (proj2 (bookFlight_effect sampleFlights [] (lit "1") (lit "user1"))
             (hd (mkFlight [] [] [] [] []) sampleFlights)).
    reflexivity.
Defined.

Lemma bookHotel_effect_witness :
  bookHotel sampleHotels [] (lit "7") (lit "user1")
  = (lit "Hotel not found", [])
  /\ fst (bookHotel sampleHotels [] (lit "1") (lit "user1"))
     = lit "Successfully booked hotel".
Proof.
  split.
  - apply (proj1 (bookHotel_effect sampleHotels [] (lit "7") (lit "user1"))).
    reflexivity.
  - apply (proj2 (bookHotel_effect sampleHotels [] (lit "1") (lit "user1"))
             (hd (mkHotel [] [] [] []) sampleHotels)).
    reflexivity.
Defined.
